(** * webutil: datastore model base classes and the deep-equality test helper

    A shallow embedding of [models.py] (StringIdModel, SingleEGModel and its
    [enforce_parent] decorator) and of the comparison helpers of
    [testutil.py] (HandlerTest.assert_equals, _assert_equals and
    assert_multiline_equals), with the properties the specification states
    about them.  The code is Python 2: [str] is a byte string, [sorted]
    orders values of any types, [re.match] anchors at the start only. *)

From Stdlib Require Import ZArith List String Ascii Bool Lia Permutation.
From Stdlib Require Import DecimalString Sorted.
From stdpp Require Import base gmap strings.

Set Warnings "-register-all".
Local Open Scope string_scope.
Local Open Scope list_scope.

(* ===================================================================== *)
(** * models.py *)
(* ===================================================================== *)

Module Models.

(** ** Keys, keyword arguments, exceptions *)

(** The last component of a datastore key path: a key name (a string) or a
    numeric id. *)
Inductive key_id :=
| KeyName (name : string)
| KeyId (id : Z).

#[global] Instance key_id_eq_dec : EqDecision key_id.
Proof. solve_decision. Defined.

#[global] Instance key_id_countable : Countable key_id.
Proof.
  refine (inj_countable'
    (fun i => match i with KeyName s => inl s | KeyId n => inr n end)
    (fun x => match x with inl s => KeyName s | inr n => KeyId n end) _).
  intros []; reflexivity.
Defined.

(** A key is its path from the root: [db.Key.from_path(kind1, id1, ...)]. *)
Abbreviation Key := (list (string * key_id)).

Definition from_path (kind : string) (id_or_name : key_id) : Key :=
  [(kind, id_or_name)].

(** The Python values that travel in [**kwargs]. *)
Inductive pyval :=
| PyNone
| PyBool (b : bool)
| PyInt (n : Z)
| PyStr (s : string)
| PyKey (k : Key).

#[global] Instance pyval_eq_dec : EqDecision pyval.
Proof. solve_decision. Defined.

(** [**kwargs] is a dict with string keys. *)
Abbreviation kwargs_t := (gmap string pyval).

Inductive exn :=
| AssertionError (msg : string).

Inductive outcome (A : Type) :=
| Returned (a : A)
| Raised (e : exn).
Arguments Returned {A} a.
Arguments Raised {A} e.

(** A model class; [cls.kind()] is its kind name. *)
Record model_class := { kind : string }.

(** A record of the datastore: kind, identifier, parent and properties, as
    the constructor received them. *)
Record Instance := {
  i_kind : string;
  i_id : option key_id;
  i_parent : option pyval;
  i_props : gmap string pyval
}.

(** The datastore: entities by full key. *)
Abbreviation datastore := (gmap Key Instance).

(** Calls that may touch the datastore: state passing with exceptions. *)
Definition M (A : Type) : Type := datastore -> outcome A * datastore.

Definition ret {A} (a : A) : M A := fun s => (Returned a, s).
Definition raise {A} (e : exn) : M A := fun s => (Raised e, s).
Definition bind {A B} (m : M A) (f : A -> M B) : M B :=
  fun s => match m s with
           | (Returned a, s') => f a s'
           | (Raised e, s') => (Raised e, s')
           end.

(** [assert cond, msg]. *)
Definition assert_ (cond : bool) (msg : string) : M unit :=
  if cond then ret tt else raise (AssertionError msg).

(** ** StringIdModel *)

(** An ndb entity: [self.key] is [None] until a key is given. *)
Record Entity := {
  e_kind : string;
  e_key : option Key;
  e_props : gmap string pyval
}.

(** [key.string_id()]: the string id of the last path element, or [None]
    when it is a numeric id. *)
Definition string_id (k : Key) : option string :=
  match last k with
  | Some (_, KeyName s) => Some s
  | _ => None
  end.

(** Truth value of [self.key and self.key.string_id()]. *)
Definition has_string_id (self : Entity) : bool :=
  match e_key self with
  | Some k => match string_id k with
              | Some s => negb (String.eqb s "")
              | None => false
              end
  | None => false
  end.

(** [StringIdModel.put]; [super_put] is [ndb.Model.put]. *)
Definition StringIdModel_put (super_put : Entity -> M Key) (self : Entity)
  : M Key :=
  bind (assert_ (has_string_id self) "string id required but not provided")
       (fun _ => super_put self).

(** ** SingleEGModel *)

(** [SingleEGModel.shared_parent_key]: [db.Key.from_path('Parent', cls.kind())]. *)
Definition shared_parent_key (cls : model_class) : Key :=
  from_path "Parent" (KeyName (kind cls)).

(** ['key' in kwargs]. *)
Definition contains (key : string) (kwargs : kwargs_t) : bool :=
  match kwargs !! key with
  | Some _ => true
  | None => false
  end.

(** [kwargs['parent'] == parent]. *)
Definition parent_is (kwargs : kwargs_t) (parent : Key) : bool :=
  bool_decide (kwargs !! "parent" = Some (PyKey parent)).

(** [SingleEGModel.enforce_parent]: the decorator.  [fn] is the wrapped
    method, [args] its positional arguments. *)
Definition enforce_parent {A R : Type}
    (fn : model_class -> A -> kwargs_t -> M R)
    (self_or_cls : model_class) (args : A) (kwargs : kwargs_t) : M R :=
  bind
    (if negb (contains "_from_entity" kwargs)
     then
       let parent := shared_parent_key self_or_cls in
       bind
         (if contains "parent" kwargs
          then assert_ (parent_is kwargs parent)
                 "Can't override parent in SingleEGModel"
          else ret tt)
         (fun _ => ret (<["parent" := PyKey parent]> kwargs))
     else ret kwargs)
    (fun kwargs' => fn self_or_cls args kwargs').

(** The full key of an entity of [cls] with the given parent and id. *)
Definition full_key (cls : model_class) (parent : option pyval) (id : key_id)
  : Key :=
  match parent with
  | Some (PyKey p) => p ++ [(kind cls, id)]
  | _ => [(kind cls, id)]
  end.

(** Modelled from the spec: the constructor of the datastore library's model
    base class ([db.Model.__init__], not part of this repository).  A record
    has an identifier, a mapping of named properties and one parent key; the
    constructor stores what it is given. *)
Definition db_Model_init (cls : model_class) (_ : unit) (kwargs : kwargs_t)
  : M Instance :=
  ret {| i_kind := kind cls;
         i_id := match kwargs !! "key_name" with
                 | Some (PyStr s) => Some (KeyName s)
                 | _ => None
                 end;
         i_parent := kwargs !! "parent";
         i_props := delete "_from_entity"
                      (delete "key_name" (delete "parent" kwargs)) |}.

(** Modelled from the spec: the storage service's lookup by identifier
    within a parent scope ([db.Model.get_by_id] and [get_by_key_name], not
    part of this repository); absence is [None]. *)
Definition db_Model_get (cls : model_class) (id : key_id) (kwargs : kwargs_t)
  : M (option Instance) :=
  fun s => (Returned (s !! full_key cls (kwargs !! "parent") id), s).

(** Modelled from the spec: the storage service's create-if-absent primitive
    ([db.Model.get_or_insert], not part of this repository): returns the
    existing record if present, otherwise creates one with the given
    defaults. *)
Definition db_Model_get_or_insert (cls : model_class) (key_name : string)
    (kwargs : kwargs_t) : M Instance :=
  fun s =>
    let k := full_key cls (kwargs !! "parent") (KeyName key_name) in
    match s !! k with
    | Some r => (Returned r, s)
    | None =>
        let r := {| i_kind := kind cls;
                    i_id := Some (KeyName key_name);
                    i_parent := kwargs !! "parent";
                    i_props := delete "parent" kwargs |} in
        (Returned r, <[k := r]> s)
    end.

(** The decorated methods of SingleEGModel. *)
Definition SingleEGModel_init : model_class -> unit -> kwargs_t -> M Instance :=
  enforce_parent db_Model_init.

Definition get_by_id (cls : model_class) (id : Z) : kwargs_t -> M (option Instance) :=
  enforce_parent (fun c i => db_Model_get c (KeyId i)) cls id.

Definition get_by_key_name (cls : model_class) (key_name : string)
  : kwargs_t -> M (option Instance) :=
  enforce_parent (fun c n => db_Model_get c (KeyName n)) cls key_name.

Definition get_or_insert : model_class -> string -> kwargs_t -> M Instance :=
  enforce_parent db_Model_get_or_insert.

(** Modelled from the spec: the storage service's write ([ndb.Model.put],
    not part of this repository): stores the entity under its key and
    returns the key; an entity without a key gets a numeric id. *)
Definition ndb_Model_put (self : Entity) : M Key :=
  fun s =>
    let k := match e_key self with
             | Some k => k
             | None => [(e_kind self, KeyId (Z.of_nat (size s) + 1))]
             end in
    (Returned k,
     <[k := {| i_kind := e_kind self;
               i_id := snd <$> last k;
               i_parent := None;
               i_props := e_props self |}]> s).

(** The parent among the keyword arguments is absent or the shared one. *)
Definition parent_ok (cls : model_class) (kwargs : kwargs_t) : bool :=
  negb (contains "parent" kwargs) || parent_is kwargs (shared_parent_key cls).

(** The failure of the decorator's assertion. *)
Definition mismatch : exn :=
  AssertionError "Can't override parent in SingleEGModel".

(** ** KeyNameModel *)

(** [key.name()]: the key name, or [None] for a numeric id. *)
Definition Key_name (id : key_id) : option string :=
  match id with
  | KeyName s => Some s
  | KeyId _ => None
  end.

(** Truth value of [self.key().name()]. *)
Definition name_given (id : key_id) : bool :=
  match Key_name id with
  | Some s => negb (String.eqb s "")
  | None => false
  end.

(** [KeyNameModel.__init__]; [super_init] is [db.Model.__init__].
    [self.key()] raises NotSavedError when the instance has no key, which the
    method turns into its own assertion failure. *)
Definition KeyNameModel_init
    (super_init : model_class -> unit -> kwargs_t -> M Instance)
    (cls : model_class) (args : unit) (kwargs : kwargs_t) : M Instance :=
  bind (super_init cls args kwargs)
       (fun self =>
          bind (match i_id self with
                | Some id => assert_ (name_given id) ""
                | None =>
                    assert_ false "key name required but not provided"
                end)
               (fun _ => ret self)).

(** ** SingleEGModel.all *)

(** The kind of a key: that of its last path element. *)
Definition key_kind (k : Key) : option string := fst <$> last k.

(** Modelled from the spec: the storage service's kind query with an
    ancestor filter ([db.Query(cls).ancestor(key)], not part of this
    repository): the entities of the kind whose key lies under [ancestor]. *)
Definition db_Query_ancestor (cls : model_class) (ancestor : Key)
    (s : datastore) : datastore :=
  filter (fun kr : Key * Instance =>
            key_kind kr.1 = Some (kind cls) /\ ancestor `prefix_of` kr.1) s.

(** [SingleEGModel.all]. *)
Definition all (cls : model_class) (s : datastore) : datastore :=
  db_Query_ancestor cls (shared_parent_key cls) s.

(** ** Sample data *)

Definition Person : model_class := {| kind := "Person" |}.

Definition foreign_parent : pyval := PyKey (from_path "Other" (KeyId 7)).

Definition kwargs_from_entity : kwargs_t :=
  {[ "_from_entity" := PyBool true; "parent" := foreign_parent ]}.

Definition unsaved : Entity :=
  {| e_kind := "Person"; e_key := None; e_props := {[ "age" := PyInt 3 ]} |}.

Definition numbered : Entity :=
  {| e_kind := "Person"; e_key := Some (from_path "Person" (KeyId 12));
     e_props := ∅ |}.

End Models.

(* ===================================================================== *)
(** * testutil.py *)
(* ===================================================================== *)

Module Testutil.

(** ** The pattern engine *)

(** Compiled patterns, as far as their matching goes: regular expressions
    over bytes.  [ReDot] is [.], any byte but a newline. *)
Inductive regex :=
| ReNever
| ReEps
| ReChar (c : ascii)
| ReDot
| ReCat (r1 r2 : regex)
| ReAlt (r1 r2 : regex)
| ReStar (r : regex).

Definition newline : ascii := ascii_of_nat 10.

Fixpoint nullable (r : regex) : bool :=
  match r with
  | ReNever => false
  | ReEps => true
  | ReChar _ => false
  | ReDot => false
  | ReCat r1 r2 => nullable r1 && nullable r2
  | ReAlt r1 r2 => nullable r1 || nullable r2
  | ReStar _ => true
  end.

(** The residual of [r] after reading the byte [c]. *)
Fixpoint deriv (c : ascii) (r : regex) : regex :=
  match r with
  | ReNever => ReNever
  | ReEps => ReNever
  | ReChar d => if Ascii.eqb c d then ReEps else ReNever
  | ReDot => if Ascii.eqb c newline then ReNever else ReEps
  | ReCat r1 r2 =>
      if nullable r1
      then ReAlt (ReCat (deriv c r1) r2) (deriv c r2)
      else ReCat (deriv c r1) r2
  | ReAlt r1 r2 => ReAlt (deriv c r1) (deriv c r2)
  | ReStar r1 => ReCat (deriv c r1) (ReStar r1)
  end.

(** The language of a pattern. *)
Inductive matches : regex -> string -> Prop :=
| M_eps : matches ReEps ""
| M_char c : matches (ReChar c) (String c "")
| M_dot c : c <> newline -> matches ReDot (String c "")
| M_cat r1 r2 s1 s2 :
    matches r1 s1 -> matches r2 s2 ->
    matches (ReCat r1 r2) (String.append s1 s2)
| M_alt_l r1 r2 s : matches r1 s -> matches (ReAlt r1 r2) s
| M_alt_r r1 r2 s : matches r2 s -> matches (ReAlt r1 r2) s
| M_star_nil r : matches (ReStar r) ""
| M_star_cons r s1 s2 :
    matches r s1 -> matches (ReStar r) s2 ->
    matches (ReStar r) (String.append s1 s2).

(** The whole string is in the language of the pattern. *)
Fixpoint fullmatch (r : regex) (s : string) : bool :=
  match s with
  | EmptyString => nullable r
  | String c s' => fullmatch (deriv c r) s'
  end.

(** [re.match(pattern, string)] is truthy: some prefix of the string, from
    its first byte, is in the language of the pattern. *)
Fixpoint re_match (r : regex) (s : string) : bool :=
  nullable r ||
  match s with
  | EmptyString => false
  | String c s' => re_match (deriv c r) s'
  end.

(** ** Values *)

(** The Python values compared by the tests: None, integers, byte strings,
    compiled patterns (objects, with their identity), lists, tuples and
    dicts with string keys (the items in the dict's iteration order). *)
Inductive value :=
| VNone
| VInt (n : Z)
| VStr (s : string)
| VPattern (addr : positive) (re : regex)
| VList (xs : list value)
| VTuple (xs : list value)
| VDict (items : list (string * value)).

(** [isinstance(v, dict)], [isinstance(v, (list, tuple))],
    [isinstance(v, basestring)]. *)
Definition as_dict (v : value) : option (list (string * value)) :=
  match v with VDict items => Some items | _ => None end.

Definition as_seq (v : value) : option (list value) :=
  match v with VList xs | VTuple xs => Some xs | _ => None end.

Definition as_str (v : value) : option string :=
  match v with VStr s => Some s | _ => None end.

(** [d[key]] when present. *)
Fixpoint dict_lookup (key : string) (items : list (string * value))
  : option value :=
  match items with
  | [] => None
  | (k, v) :: rest => if String.eqb k key then Some v else dict_lookup key rest
  end.

(** [d.get(key)]: None when the key is missing. *)
Definition dict_get (items : list (string * value)) (key : string) : value :=
  match dict_lookup key items with
  | Some v => v
  | None => VNone
  end.

Definition dict_keys (items : list (string * value)) : list string :=
  map fst items.

Definition mem_string (k : string) (ks : list string) : bool :=
  existsb (String.eqb k) ks.

Fixpoint dedup (ks : list string) : list string :=
  match ks with
  | [] => []
  | k :: rest => if mem_string k rest then dedup rest else k :: dedup rest
  end.

(** [set(expected.keys()) | set(actual.keys())], in the order the loop
    visits it.  Python leaves the order of a set unspecified; here the keys
    come in the order of their last occurrence in expected's keys followed by
    actual's. *)
Definition union_keys (e a : list (string * value)) : list string :=
  dedup (dict_keys e ++ dict_keys a).

(** ** Equality and ordering of values (Python 2) *)

(** Two lists have the same length and [f] holds of their elements pairwise. *)
Definition all2 (f : value -> value -> bool) : list value -> list value -> bool :=
  fix go (xs ys : list value) : bool :=
    match xs, ys with
    | [], [] => true
    | x :: xs', y :: ys' => f x y && go xs' ys'
    | _, _ => false
    end.

(** Every item of [a] has its key in [b], with values related by [f]. *)
Definition dict_sub (f : value -> value -> bool) (b : list (string * value))
  : list (string * value) -> bool :=
  fix go (a : list (string * value)) : bool :=
    match a with
    | [] => true
    | (k, v) :: a' =>
        match dict_lookup k b with
        | Some w => f v w
        | None => false
        end && go a'
    end.

(** [x == y]. *)
Fixpoint py_eq (x y : value) : bool :=
  match x, y with
  | VNone, VNone => true
  | VInt a, VInt b => Z.eqb a b
  | VStr a, VStr b => String.eqb a b
  | VPattern a _, VPattern b _ => Pos.eqb a b
  | VList xs, VList ys
  | VTuple xs, VTuple ys => all2 py_eq xs ys
  | VDict a, VDict b => Nat.eqb (length a) (length b) && dict_sub py_eq b a
  | _, _ => false
  end.

(** The rank of a type in the default cross-type order: None first, then
    numbers, then the other types by type name
    ([_sre.SRE_Pattern] < [dict] < [list] < [str] < [tuple]). *)
Definition type_rank (v : value) : nat :=
  match v with
  | VNone => 0
  | VInt _ => 1
  | VPattern _ _ => 2
  | VDict _ => 3
  | VList _ => 4
  | VStr _ => 5
  | VTuple _ => 6
  end.

Definition min_key (ks : list string) : option string :=
  fold_right (fun k acc =>
                match acc with
                | None => Some k
                | Some m => if String.ltb k m then Some k else Some m
                end) None ks.

(** The item of [a] has no equal value under its key in [b]. *)
Definition differs_in (b : list (string * value)) (kv : string * value) : bool :=
  match dict_lookup (fst kv) b with
  | Some w => negb (py_eq (snd kv) w)
  | None => true
  end.

(** The smallest key of [a] whose value differs from [b]'s or that [b]
    lacks (dict comparison's [characterize]). *)
Definition characterize (a b : list (string * value)) : option string :=
  min_key (dict_keys (List.filter (differs_in b) a)).

(** Lexicographic comparison of two lists: the first pair of unequal
    elements decides, then the lengths. *)
Definition lex_cmp (cmp : value -> value -> comparison)
  : list value -> list value -> comparison :=
  fix go (xs ys : list value) : comparison :=
    match xs, ys with
    | [], [] => Eq
    | [], _ :: _ => Lt
    | _ :: _, [] => Gt
    | x :: xs', y :: ys' => if py_eq x y then go xs' ys' else cmp x y
    end.

(** [cmp_to (a[key])], for the first item of [a] under [key]. *)
Definition cmp_at_key (cmp_to : value -> comparison) (key : string)
  : list (string * value) -> comparison :=
  fix go (a : list (string * value)) : comparison :=
    match a with
    | [] => Eq
    | (k, v) :: a' => if String.eqb k key then cmp_to v else go a'
    end.

(** [cmp(x, y)]: integers and strings by value, lists and tuples
    lexicographically, dicts by size and then by their smallest differing
    key and its values, pattern objects by identity, values of different
    types by type. *)
Fixpoint py_cmp (x y : value) : comparison :=
  match x, y with
  | VNone, VNone => Eq
  | VInt a, VInt b => Z.compare a b
  | VStr a, VStr b => String.compare a b
  | VPattern a _, VPattern b _ => Pos.compare a b
  | VList xs, VList ys
  | VTuple xs, VTuple ys => lex_cmp py_cmp xs ys
  | VDict a, VDict b =>
      match Nat.compare (length a) (length b) with
      | Eq =>
          match characterize a b, characterize b a with
          | Some ka, Some kb =>
              match String.compare ka kb with
              | Eq => cmp_at_key (fun v => py_cmp v (dict_get b kb)) ka a
              | c => c
              end
          | _, _ => Eq
          end
      | c => c
      end
  | _, _ => Nat.compare (type_rank x) (type_rank y)
  end.

(** [x < y]. *)
Definition py_lt (x y : value) : bool :=
  match py_cmp x y with Lt => true | _ => false end.

(** [sorted(list(xs))]: a stable sort with [<]. *)
Fixpoint insert_sorted (x : value) (l : list value) : list value :=
  match l with
  | [] => [x]
  | y :: l' => if py_lt y x then y :: insert_sorted x l' else x :: l
  end.

Definition sorted (xs : list value) : list value :=
  fold_right insert_sorted [] xs.

(** ** Strings (Python 2 [str]) *)

Definition carriage_return : ascii := ascii_of_nat 13.

(** ['\n' in s]. *)
Fixpoint contains_newline (s : string) : bool :=
  match s with
  | EmptyString => false
  | String c s' => Ascii.eqb c newline || contains_newline s'
  end.

(** The bytes [str.strip()] removes: space, tab, newline, vertical tab,
    form feed, carriage return. *)
Definition is_space (c : ascii) : bool :=
  let n := nat_of_ascii c in
  Nat.eqb n 32 || (Nat.leb 9 n && Nat.leb n 13).

Fixpoint lstrip (s : string) : string :=
  match s with
  | EmptyString => EmptyString
  | String c s' => if is_space c then lstrip s' else s
  end.

Fixpoint rstrip (s : string) : string :=
  match s with
  | EmptyString => EmptyString
  | String c s' =>
      match rstrip s' with
      | EmptyString => if is_space c then EmptyString else String c EmptyString
      | r => String c r
      end
  end.

(** [s.strip()]. *)
Definition strip (s : string) : string := rstrip (lstrip s).

(** [s.splitlines(True)]: lines end at [\n], [\r] or [\r\n], and keep their
    line ending; [cur] is the line read so far. *)
Fixpoint splitlines_from (cur s : string) : list string :=
  match s with
  | EmptyString => if String.eqb cur "" then [] else [cur]
  | String c s' =>
      if Ascii.eqb c newline
      then String.append cur (String c "") :: splitlines_from "" s'
      else if Ascii.eqb c carriage_return
      then match s' with
           | String c2 s'' =>
               if Ascii.eqb c2 newline
               then String.append cur (String c (String c2 ""))
                      :: splitlines_from "" s''
               else String.append cur (String c "") :: splitlines_from "" s'
           | EmptyString => [String.append cur (String c "")]
           end
      else splitlines_from (String.append cur (String c "")) s'
  end.

Definition splitlines_keepends (s : string) : list string :=
  splitlines_from "" s.

Definition blank_line : string := String newline "".

(** [enumerate(xs)]. *)
Definition enumerate {A : Type} (xs : list A) : list (nat * A) :=
  combine (seq 0 (length xs)) xs.

(** [normalize] of assert_multiline_equals. *)
Definition stripped_lines (val : string) : list string :=
  map (fun l => String.append (strip l) blank_line) (splitlines_keepends val).

Definition keep_line (lines : list string) (il : nat * string) : bool :=
  let (i, l) := il in
  Nat.leb i 1 ||
  negb (String.eqb (nth (i - 1) lines "") l && String.eqb l blank_line).

Definition normalize (val : string) : list string :=
  let lines := stripped_lines val in
  map snd (List.filter (keep_line lines) (enumerate lines)).

(** ** Failures *)

(** The innermost message of a failure; its text is produced by unittest,
    repr and difflib. *)
Inductive leaf :=
| NoMatch (expected : value) (actual : string)
| DifferentLengths (n_expected n_actual : nat)
| NotEqual (first second : value)
| LinesDiffer (exp_lines act_lines : list string).

(** The message of an AssertionError: [''.join(e.args)] is [f_path]
    followed by the text of [f_leaf]. *)
Record failure := {
  f_path : string;
  f_leaf : leaf
}.

Inductive verdict :=
| Pass
| Fail (f : failure)
| TypeError.

(** [self.fail(msg)] and a failed unittest assertion. *)
Definition fail (l : leaf) : verdict :=
  Fail {| f_path := ""; f_leaf := l |}.

(** ['%s' % key] for a loop index. *)
Definition str_of_nat (n : nat) : string :=
  NilZero.string_of_uint (Nat.to_uint n).

(** The [except AssertionError] clause of _assert_equals:
    [('[%s] ' % key if key is not None else '') + ''.join(e.args)]. *)
Definition reraise (key : option string) (f : failure) : failure :=
  {| f_path :=
       String.append
         (match key with
          | Some k => String.append "[" (String.append k "] ")
          | None => ""
          end) (f_path f);
     f_leaf := f_leaf f |}.

(** [self.assertEquals(expected, actual)]. *)
Definition assertEquals (expected actual : value) : verdict :=
  if py_eq expected actual then Pass else fail (NotEqual expected actual).

(** [assert_multiline_equals]. *)
Definition assert_multiline_equals (expected actual : string) : verdict :=
  let exp_lines := normalize expected in
  let act_lines := normalize actual in
  if decide (exp_lines = act_lines) then Pass
  else fail (LinesDiffer exp_lines act_lines).

(** ** _assert_equals *)

Section Loops.
Variable recur : value -> value -> bool -> option verdict.
Variable in_order : bool.

(** The loop over the keys of two dicts; a failure below leaves the loop
    with [key] bound. *)
Fixpoint dict_loop (keys : list string) (e a : list (string * value))
  : option verdict :=
  match keys with
  | [] => Some Pass
  | key :: rest =>
      match recur (dict_get e key) (dict_get a key) in_order with
      | None => None
      | Some Pass => dict_loop rest e a
      | Some (Fail f) => Some (Fail (reraise (Some key) f))
      | Some TypeError => Some TypeError
      end
  end.

(** The loop over [enumerate(zip(expected, actual))]. *)
Fixpoint seq_loop (pairs : list (nat * (value * value))) : option verdict :=
  match pairs with
  | [] => Some Pass
  | (key, (e, a)) :: rest =>
      match recur e a in_order with
      | None => None
      | Some Pass => seq_loop rest
      | Some (Fail f) => Some (Fail (reraise (Some (str_of_nat key)) f))
      | Some TypeError => Some TypeError
      end
  end.
(** A failure raised at this level itself, before any loop variable is
    bound: [key] is None. *)
Definition at_this_level (v : verdict) : verdict :=
  match v with
  | Fail f => Fail (reraise None f)
  | _ => v
  end.

(** The body of _assert_equals; [recur] stands for its recursive calls. *)
Definition assert_equals_body (expected actual : value) : option verdict :=
  match expected with
  | VPattern _ re =>
      match actual with
      | VStr s =>
          Some (at_this_level
                  (if re_match re s then Pass
                   else fail (NoMatch expected s)))
      | _ => Some TypeError
      end
  | _ =>
      match as_dict expected, as_dict actual with
      | Some e, Some a => dict_loop (union_keys e a) e a
      | _, _ =>
          match as_seq expected, as_seq actual with
          | Some e, Some a =>
              let e' := if in_order then e else sorted e in
              let a' := if in_order then a else sorted a in
              if Nat.eqb (length e') (length a')
              then seq_loop (enumerate (combine e' a'))
              else Some (at_this_level
                           (fail (DifferentLengths (length e') (length a'))))
          | _, _ =>
              match as_str expected, as_str actual with
              | Some e, Some a =>
                  Some (at_this_level
                          (if contains_newline e
                           then assert_multiline_equals e a
                           else assertEquals expected actual))
              | _, _ => Some (at_this_level (assertEquals expected actual))
              end
          end
      end
  end.
End Loops.

(** [_assert_equals], with the nesting depth it may descend bounded by
    [fuel]; [None] when the bound is reached. *)
Fixpoint assert_equals_rec (fuel : nat) (expected actual : value)
    (in_order : bool) : option verdict :=
  match fuel with
  | O => None
  | S fuel' =>
      assert_equals_body (assert_equals_rec fuel') in_order expected actual
  end.

(** The nesting depth of a value. *)
Fixpoint depth (v : value) : nat :=
  match v with
  | VList xs | VTuple xs => S (list_max (map depth xs))
  | VDict items =>
      S (list_max (map (fun kv : string * value => let (_, w) := kv in depth w) items))
  | _ => 0
  end.

(** [HandlerTest._assert_equals(expected, actual, in_order)]. *)
Definition _assert_equals (expected actual : value) (in_order : bool)
  : option verdict :=
  assert_equals_rec (S (depth expected)) expected actual in_order.

(** The AssertionError of assert_equals: the four values its format string
    is filled with ([pprint.pformat] renders the last two). *)
Record report := {
  r_msg : option string;
  r_detail : failure;
  r_expected : value;
  r_actual : value
}.

Inductive result :=
| Passed
| Failed (r : report)
| Errored.

(** [HandlerTest.assert_equals(expected, actual, msg, in_order)]. *)
Definition assert_equals (expected actual : value) (msg : option string)
    (in_order : bool) : option result :=
  match _assert_equals expected actual in_order with
  | None => None
  | Some Pass => Some Passed
  | Some (Fail f) =>
      Some (Failed {| r_msg := msg; r_detail := f;
                      r_expected := expected; r_actual := actual |})
  | Some TypeError => Some Errored
  end.

(** ** Notions used to state the properties *)


Definition is_pattern (v : value) : bool :=
  match v with VPattern _ _ => true | _ => false end.



(** [''.join(lines)]. *)
Definition join (lines : list string) : string :=
  fold_right String.append "" lines.

Fixpoint all_space (s : string) : bool :=
  match s with
  | EmptyString => true
  | String c s' => is_space c && all_space s'
  end.

Definition starts_with_space (s : string) : bool :=
  match s with
  | String c _ => is_space c
  | EmptyString => false
  end.

Fixpoint ends_with_space (s : string) : bool :=
  match s with
  | EmptyString => false
  | String c EmptyString => is_space c
  | String _ s' => ends_with_space s'
  end.

(** The string ends with a newline or a carriage return. *)
Fixpoint ends_with_break (s : string) : bool :=
  match s with
  | EmptyString => false
  | String c EmptyString =>
      Ascii.eqb c newline || Ascii.eqb c carriage_return
  | String _ s' => ends_with_break s'
  end.

Definition is_blank (l : string) : bool := String.eqb l blank_line.

(** Blank-line squeezing as the specification words it: every run of two or
    more consecutive blank lines becomes a single blank line.  [prev_blank]
    tells whether the line before was blank. *)
Fixpoint squeeze_from (prev_blank : bool) (lines : list string) : list string :=
  match lines with
  | [] => []
  | l :: rest =>
      if is_blank l
      then if prev_blank then squeeze_from true rest
           else l :: squeeze_from true rest
      else l :: squeeze_from false rest
  end.

Definition squeeze_blank_lines (lines : list string) : list string :=
  squeeze_from false lines.

(** The text begins with two blank lines. *)
Definition leading_blank_run (lines : list string) : bool :=
  match lines with
  | l0 :: l1 :: _ => is_blank l0 && is_blank l1
  | _ => false
  end.

Fixpoint distinct (ks : list string) : bool :=
  match ks with
  | [] => true
  | k :: rest => negb (mem_string k rest) && distinct rest
  end.

(** The value is well formed: no dict in it has two items under one key. *)
Fixpoint well_formed (v : value) : bool :=
  match v with
  | VList xs | VTuple xs => forallb well_formed xs
  | VDict items =>
      distinct (dict_keys items) &&
      forallb (fun kv : string * value => let (_, w) := kv in well_formed w)
              items
  | _ => true
  end.

(** No list or tuple occurs in the value. *)
Fixpoint seq_free (v : value) : bool :=
  match v with
  | VList _ | VTuple _ => false
  | VDict items =>
      forallb (fun kv : string * value => let (_, w) := kv in seq_free w)
              items
  | _ => true
  end.

(** No compiled pattern occurs in the value. *)
Fixpoint pattern_free (v : value) : bool :=
  match v with
  | VPattern _ _ => false
  | VList xs | VTuple xs => forallb pattern_free xs
  | VDict items =>
      forallb (fun kv : string * value => let (_, w) := kv in pattern_free w)
              items
  | _ => true
  end.

(** ** expect_urlopen *)

(** [pattern.search(string)] is truthy: the pattern matches from some
    position of the string. *)
Fixpoint re_search (r : regex) (s : string) : bool :=
  re_match r s ||
  match s with
  | EmptyString => false
  | String _ s' => re_search r s'
  end.

(** The compiled [re.escape(s)]: the pattern of the string [s] itself. *)
Fixpoint re_escape (s : string) : regex :=
  match s with
  | EmptyString => ReEps
  | String c s' => ReCat (ReChar c) (re_escape s')
  end.

(** The [url] argument: a string or a compiled pattern. *)
Inductive url_arg :=
| UrlString (s : string)
| UrlPattern (re : regex).

(** A [urllib2.Request], as far as the check reads it. *)
Record Request := {
  get_full_url : string;
  get_data : option string;
  header_items : list (string * string)
}.

(** What [urlopen] is called with: a URL string or a Request. *)
Inductive request_arg :=
| ReqString (url : string)
| ReqObject (r : Request).

(** The [headers] argument: None, a dict or a [mox.Comparator]. *)
Inductive headers_arg :=
| HeadersNone
| HeadersDict (items : list (string * string))
| HeadersComparator (equals : list (string * string) -> bool).

(** [not data] and [not headers]. *)
Definition no_data (data : option string) : bool :=
  match data with
  | None => true
  | Some d => String.eqb d ""
  end.

Definition no_headers (headers : headers_arg) : bool :=
  match headers with
  | HeadersNone => true
  | HeadersDict items => match items with [] => true | _ => false end
  | HeadersComparator _ => false
  end.

(** [data == req.get_data()]. *)
Definition same_data (data other : option string) : bool :=
  match data, other with
  | None, None => true
  | Some d, Some d' => String.eqb d d'
  | _, _ => false
  end.

Definition has_header (items : list (string * string)) (h : string * string)
  : bool :=
  existsb (fun h' => String.eqb (fst h) (fst h') && String.eqb (snd h) (snd h'))
          items.

(** [check_request] of expect_urlopen: True unless one of its assertions
    fails. *)
Definition check_request (url : url_arg) (data : option string)
    (headers : headers_arg) (req : request_arg) : bool :=
  let expected := match url with
                  | UrlPattern re => re
                  | UrlString u => re_escape u
                  end in
  match req with
  | ReqString r =>
      re_search expected r && no_data data && no_headers headers
  | ReqObject r =>
      re_search expected (get_full_url r) &&
      same_data data (get_data r) &&
      match headers with
      | HeadersComparator equals => equals (header_items r)
      | HeadersDict items => forallb (has_header (header_items r)) items
      | HeadersNone => true
      end
  end.

(** [HandlerTest.UrlopenResult]. *)
Record UrlopenResult := {
  status_code : Z;
  content : string;
  result_headers : list (string * string)
}.

Definition read (r : UrlopenResult) : string := content r.
Definition getcode (r : UrlopenResult) : Z := status_code r.

(** The body handed to HTTPError: None, the raw (empty) string, or a
    [StringIO] of the response. *)
Inductive error_body :=
| BodyNone
| BodyRaw (s : string)
| BodyFile (s : string).

(** What expect_urlopen does with the expected call. *)
Inductive stubbed :=
| AndRaise (code : Z) (hdrs : list (string * string)) (fp : error_body)
| AndReturn (r : UrlopenResult)
| ReturnsCall.

(** The part of [expect_urlopen] after the call is recorded. *)
Definition expect_urlopen (response : option string) (status : Z)
    (response_headers : list (string * string)) : stubbed :=
  if negb (Z.eqb (status / 100) 2)
  then AndRaise status response_headers
         (match response with
          | None => BodyNone
          | Some r => if String.eqb r "" then BodyRaw r else BodyFile r
          end)
  else match response with
       | Some r => AndReturn {| status_code := status; content := r;
                                result_headers := response_headers |}
       | None => ReturnsCall
       end.

(** ** assert_entities_equal *)

(** An [ndb.Model] instance, as the comparison reads it: [e.key] (None
    until a key is given) and [e.to_dict()], the values of its properties. *)
Record entity := {
  ent_key : option Models.Key;
  ent_props : list (string * value)
}.

(** The [a] and [b] arguments: one entity or a list of entities. *)
Inductive entities_arg :=
| OneEntity (e : entity)
| ManyEntities (es : list entity).

(** [a = [a]] unless it is a list already. *)
Definition as_list (a : entities_arg) : list entity :=
  match a with
  | OneEntity e => [e]
  | ManyEntities es => es
  end.

(** A key as a value to sort by: None, or the tuple of its (kind, id)
    pairs, which is what ndb keys are ordered by. *)
Definition key_value (k : option Models.Key) : value :=
  match k with
  | None => VNone
  | Some path =>
      VTuple (map (fun p : string * Models.key_id =>
                     VTuple [VStr (fst p);
                             match snd p with
                             | Models.KeyName n => VStr n
                             | Models.KeyId i => VInt i
                             end]) path)
  end.

(** [sorted(es, key=key_fn)]: a stable sort by [<] on the keys. *)
Fixpoint insert_by_key (x : entity) (l : list entity) : list entity :=
  match l with
  | [] => [x]
  | y :: l' =>
      if py_lt (key_value (ent_key y)) (key_value (ent_key x))
      then y :: insert_by_key x l'
      else x :: l
  end.

Definition sorted_by_key (es : list entity) : list entity :=
  fold_right insert_by_key [] es.

(** [props(e)]: the properties whose name is not in [ignore]. *)
Definition props (ignore : list string) (e : entity) : list (string * value) :=
  List.filter (fun kv => negb (mem_string (fst kv) ignore)) (ent_props e).

(** How assert_entities_equal ends. *)
Inductive entities_outcome :=
| EntitiesEqual
| LengthsDiffer (n_a n_b : nat)
| KeysDiffer (x y : Models.Key)
| PropsDiffer (r : report)
| AttributeError
| PropsError.

Definition same_path (x y : Models.Key) : bool :=
  py_eq (key_value (Some x)) (key_value (Some y)).

(** The loop over [zip(a, b)].  [e.key.flat()] raises AttributeError when
    the key is None; keys that differ fail; then, unless [keys_only], the
    properties are compared with assert_equals (out of order). *)
Fixpoint entities_loop (ignore : list string) (keys_only : bool)
    (pairs : list (entity * entity)) : option entities_outcome :=
  match pairs with
  | [] => Some EntitiesEqual
  | (x, y) :: rest =>
      match ent_key x, ent_key y with
      | Some kx, Some ky =>
          if same_path kx ky
          then if keys_only then entities_loop ignore keys_only rest
               else match assert_equals (VDict (props ignore x))
                                        (VDict (props ignore y)) None false with
                    | None => None
                    | Some Passed => entities_loop ignore keys_only rest
                    | Some (Failed r) => Some (PropsDiffer r)
                    | Some Errored => Some PropsError
                    end
          else Some (KeysDiffer kx ky)
      | _, _ => Some AttributeError
      end
  end.

(** [HandlerTest.assert_entities_equal(a, b, ignore, keys_only, in_order)],
    for ndb entities. *)
Definition assert_entities_equal (a b : entities_arg) (ignore : list string)
    (keys_only in_order : bool) : option entities_outcome :=
  let a := as_list a in
  let b := as_list b in
  let a := if in_order then a else sorted_by_key a in
  let b := if in_order then b else sorted_by_key b in
  if Nat.eqb (length a) (length b)
  then entities_loop ignore keys_only (combine a b)
  else Some (LengthsDiffer (length a) (length b)).

(** What the comparison reads of an entity: its key, and its properties
    outside [ignore] unless [keys_only]. *)
Definition view (ignore : list string) (keys_only : bool) (e : entity)
  : option Models.Key * list (string * value) :=
  (ent_key e, if keys_only then [] else props ignore e).

(** ** Sample data *)

Definition lf : string := String newline "".

Definition nested_expected : value :=
  VDict [("a", VInt 1); ("b", VList [VInt 1; VInt 2; VInt 3])].

Definition nested_actual : value :=
  VDict [("a", VInt 1); ("b", VList [VInt 3; VInt 2; VInt 1])].

(** ["line1\nline2"] and ["line1 \n\nline2\n"]. *)
Definition two_lines : string :=
  String.append "line1" (String.append lf "line2").

Definition two_lines_spaced : string :=
  String.append "line1 " (String.append lf
    (String.append lf (String.append "line2" lf))).

(** ["line1\n\nline2"] and ["line1 \n\n\n\nline2\n"]. *)
Definition gap_lines : string :=
  String.append "line1" (String.append lf (String.append lf "line2")).

Definition wide_gap_lines : string :=
  String.append "line1 " (String.append lf (String.append lf
    (String.append lf (String.append lf (String.append "line2" lf))))).


End Testutil.


(* ===================================================================== *)
(** * handlers.py *)
(* ===================================================================== *)

Module Handlers.
Import Testutil.

(** ** Requests and responses *)

(** A request, as far as the handlers read it: its path, its parameters in
    order (a multi-dict: a key may occur several times) and the value of
    [headers.get('Accept')]. *)
Record request := {
  req_path : string;
  req_params : list (string * string);
  req_accept : option string
}.

(** The response: its headers and what was written to [response.out]. *)
Record response := {
  resp_headers : gmap string string;
  resp_out : string
}.

(** [params.getall(key)]. *)
Definition getall (ps : list (string * string)) (key : string) : list string :=
  map snd (List.filter (fun kv => String.eqb (fst kv) key) ps).

(** [request.get(name)]: the first value of the parameter, [''] without. *)
Definition request_get (req : request) (name : string) : string :=
  match getall (req_params req) name with
  | v :: _ => v
  | [] => ""
  end.

(** ** os.path.splitext *)

(** [s.rfind(c)], scanning from index [i] with [found] the last hit so far;
    -1 when there is none. *)
Fixpoint rfind_from (c : ascii) (s : string) (i found : Z) : Z :=
  match s with
  | EmptyString => found
  | String d s' => rfind_from c s' (i + 1) (if Ascii.eqb d c then i else found)
  end.

Definition rfind (c : ascii) (s : string) : Z := rfind_from c s 0 (-1).

Definition char_at (s : string) (i : Z) : option ascii :=
  String.get (Z.to_nat i) s.

(** The loop of [_splitext] that skips leading dots: some character of
    [p[filenameIndex:dotIndex]] is not a dot.  [n] counts the indexes left. *)
Fixpoint has_non_dot (p : string) (filenameIndex : Z) (n : nat) : bool :=
  match n with
  | O => false
  | S n' =>
      match char_at p filenameIndex with
      | Some c =>
          if negb (Ascii.eqb c ".") then true
          else has_non_dot p (filenameIndex + 1) n'
      | None => false
      end
  end.

(** [os.path.splitext(p)] (posixpath). *)
Definition splitext (p : string) : string * string :=
  let sepIndex := rfind "/" p in
  let dotIndex := rfind "." p in
  if Z.ltb sepIndex dotIndex && 
     has_non_dot p (sepIndex + 1) (Z.to_nat (dotIndex - (sepIndex + 1)))
  then (String.substring 0 (Z.to_nat dotIndex) p,
        String.substring (Z.to_nat dotIndex)
                         (String.length p - Z.to_nat dotIndex) p)
  else (p, "").

(** ** Handlers *)

(** The methods a handler class defines or inherits.  [template_file] is
    [None] where the method raises NotImplementedError. *)
Record handler := {
  template_file : request -> option string;
  template_vars : request -> gmap string value;
  content_type : request -> string;
  force_to_sequence : list string;
  headers : string -> list (string * string)
}.

(** [TemplateHandler.headers]; [host] is [appengine_config.HOST]. *)
Definition TemplateHandler_headers (host : string) : list (string * string) :=
  [("Cache-Control", "max-age=300");
   ("X-XRDS-Location",
    String.append "https://" (String.append host "/.well-known/host-meta.xrds"));
   ("Access-Control-Allow-Origin", "*")].

(** [TemplateHandler], with the defaults of its methods. *)
Definition TemplateHandler : handler :=
  {| template_file := fun _ => None;
     template_vars := fun _ => ∅;
     content_type := fun _ => "text/html; charset=utf-8";
     force_to_sequence := [];
     headers := TemplateHandler_headers |}.

(** The value stored for a query parameter: its only value, or the list of
    its values. *)
Definition param_value (ps : list (string * string)) (key : string) : value :=
  match getall ps key with
  | [v] => VStr v
  | vs => VList (map VStr vs)
  end.

(** The loop over [self.request.params]. *)
Definition add_params (ps : list (string * string)) (vars : gmap string value)
  : gmap string value :=
  fold_left (fun vars key => <[key := param_value ps key]> vars)
            (map fst ps) vars.

Definition is_none (v : value) : bool :=
  match v with VNone => true | _ => false end.

Definition is_sequence (v : value) : bool :=
  match v with VList _ | VTuple _ => true | _ => false end.

(** One round of the loop over [force_to_sequence()]. *)
Definition force_one (vars : gmap string value) (key : string)
  : gmap string value :=
  match vars !! key with
  | Some val =>
      if negb (is_none val) && negb (is_sequence val)
      then <[key := VTuple [val]]> vars
      else vars
  | None => vars
  end.

(** What a round of that loop makes of a value that is present. *)
Definition forced (v : value) : value :=
  if negb (is_none v) && negb (is_sequence v) then VTuple [v] else v.

(** The template variables [get] renders with. *)
Definition template_context (h : handler) (host : string) (req : request)
  : gmap string value :=
  let vars := {[ "host" := VStr host ]} in
  let vars := add_params (req_params req) vars in
  let vars := template_vars h req ∪ vars in
  fold_left force_one (force_to_sequence h) vars.

(** [TemplateHandler.get]: the response after the call, and whether
    [template_file] raised NotImplementedError (after the headers were
    set).  [render] is [template.render]. *)
Definition get (h : handler) (host : string)
    (render : string -> gmap string value -> string)
    (req : request) (resp : response) : response * bool :=
  let hs := <["Content-Type" := content_type h req]> (resp_headers resp) in
  let hs := fold_left (fun hs kv => <[fst kv := snd kv]> hs) (headers h host) hs in
  let vars := template_context h host req in
  match template_file h req with
  | Some file =>
      ({| resp_headers := hs;
          resp_out := String.append (resp_out resp) (render file vars) |},
       false)
  | None => ({| resp_headers := hs; resp_out := resp_out resp |}, true)
  end.

(** [XrdOrJrdHandler.is_jrd]. *)
Definition is_jrd (req : request) : bool :=
  String.eqb (snd (splitext (req_path req))) ".json" ||
  String.eqb (request_get req "format") "json" ||
  match req_accept req with
  | Some a => String.eqb a "application/json"
  | None => false
  end.

(** [XrdOrJrdHandler], for a subclass with the given [template_prefix()]. *)
Definition XrdOrJrdHandler (template_prefix : string) : handler :=
  {| template_file := fun req =>
       Some (String.append template_prefix
               (if is_jrd req then ".jrd" else ".xrd"));
     template_vars := fun _ => ∅;
     content_type := fun req =>
       if is_jrd req then "application/json" else "application/xrd+xml";
     force_to_sequence := [];
     headers := TemplateHandler_headers |}.

(** [HostMetaHandler] and [HostMetaXrdsHandler]. *)
Definition HostMetaHandler : handler := XrdOrJrdHandler "templates/host-meta".

Definition HostMetaXrdsHandler : handler :=
  {| template_file := fun _ => Some "templates/host-meta.xrds";
     template_vars := fun _ => ∅;
     content_type := fun _ => "application/xrds+xml";
     force_to_sequence := [];
     headers := TemplateHandler_headers |}.

(** ** Sample data *)

Definition host_meta_json : request :=
  {| req_path := "/.well-known/host-meta.json"; req_params := [];
     req_accept := None |}.

Definition empty_response : response :=
  {| resp_headers := ∅; resp_out := "" |}.

End Handlers.

(* ===================================================================== *)
(** * Properties of models.py *)
(* ===================================================================== *)

Section ModelsFacts.
Import Models.

Lemma contains_false (key : string) (kwargs : kwargs_t) :
  contains key kwargs = false <-> kwargs !! key = None.
Proof. unfold contains. destruct (kwargs !! key); split; congruence. Qed.

Lemma contains_true (key : string) (kwargs : kwargs_t) :
  contains key kwargs = true <-> is_Some (kwargs !! key).
Proof.
  unfold contains. destruct (kwargs !! key) eqn:E; split; intros H; eauto.
  - discriminate.
  - destruct H; discriminate.
Qed.

(** The three ways through the decorator. *)
Lemma enforce_parent_bypass {A R} (fn : model_class -> A -> kwargs_t -> M R)
    (cls : model_class) (args : A) (kwargs : kwargs_t) :
  contains "_from_entity" kwargs = true ->
  enforce_parent fn cls args kwargs = fn cls args kwargs.
Proof. intros H. unfold enforce_parent. rewrite H. reflexivity. Qed.

Lemma enforce_parent_inject {A R} (fn : model_class -> A -> kwargs_t -> M R)
    (cls : model_class) (args : A) (kwargs : kwargs_t) :
  contains "_from_entity" kwargs = false ->
  kwargs !! "parent" = None \/
  kwargs !! "parent" = Some (PyKey (shared_parent_key cls)) ->
  enforce_parent fn cls args kwargs
  = fn cls args (<["parent" := PyKey (shared_parent_key cls)]> kwargs).
Proof.
  intros H Hp. unfold enforce_parent, contains, parent_is in *.
  destruct (kwargs !! "_from_entity"); [discriminate|]. simpl.
  destruct Hp as [Hp|Hp]; rewrite Hp; [reflexivity|].
  rewrite bool_decide_eq_true_2 by reflexivity. reflexivity.
Qed.

Lemma enforce_parent_mismatch {A R} (fn : model_class -> A -> kwargs_t -> M R)
    (cls : model_class) (args : A) (kwargs : kwargs_t) (p : pyval)
    (s : datastore) :
  contains "_from_entity" kwargs = false ->
  kwargs !! "parent" = Some p ->
  p <> PyKey (shared_parent_key cls) ->
  enforce_parent fn cls args kwargs s = (Raised mismatch, s).
Proof.
  intros H Hp Hne. unfold enforce_parent, contains, parent_is in *.
  destruct (kwargs !! "_from_entity"); [discriminate|]. simpl.
  rewrite Hp. rewrite bool_decide_eq_false_2 by congruence. reflexivity.
Qed.

(** C10.  When the keyword arguments include ['_from_entity'], the decorator
    calls the wrapped method with the arguments unchanged: no parent is
    injected and none is checked, so the constructor accepts whatever parent
    the arguments carry and cannot fail with the parent assertion. *)
Theorem from_entity_skips_enforcement
    {A R} (fn : model_class -> A -> kwargs_t -> M R) (cls : model_class)
    (args : A) (kwargs : kwargs_t) (s : datastore) :
  contains "_from_entity" kwargs = true ->
  enforce_parent fn cls args kwargs = fn cls args kwargs /\
  exists inst,
    SingleEGModel_init cls tt kwargs s = (Returned inst, s) /\
    i_parent inst = kwargs !! "parent".
Proof.
  intros H. split; [apply enforce_parent_bypass, H|].
  unfold SingleEGModel_init. rewrite enforce_parent_bypass by exact H.
  eexists. split; reflexivity.
Qed.

Lemma from_entity_skips_enforcement_witness :
  contains "_from_entity" kwargs_from_entity = true /\
  (enforce_parent db_Model_init Person tt kwargs_from_entity
   = db_Model_init Person tt kwargs_from_entity /\
   exists inst,
     SingleEGModel_init Person tt kwargs_from_entity ∅ = (Returned inst, ∅) /\
     i_parent inst = kwargs_from_entity !! "parent").
Proof.
  split; [reflexivity|].
  apply (from_entity_skips_enforcement db_Model_init Person tt
           kwargs_from_entity ∅).
  reflexivity.
Defined.

(** C1, as the claim states it, fails: with ['_from_entity'] among the
    keyword arguments a record is constructed under a parent that is not the
    shared parent key, and nothing is raised. *)
Lemma parent_not_always_shared :
  exists inst,
    SingleEGModel_init Person tt kwargs_from_entity ∅ = (Returned inst, ∅) /\
    i_parent inst = Some foreign_parent /\
    foreign_parent <> PyKey (shared_parent_key Person).
Proof.
  eexists. split; [vm_compute; reflexivity|].
  split; [reflexivity|]. discriminate.
Qed.

(** C1 (amended).  For every construction or lookup whose keyword arguments
    do not include ['_from_entity']: a supplied parent that differs from
    [shared_parent_key(kind)] aborts with the assertion failure before the
    wrapped method runs; otherwise the wrapped method receives the arguments
    with [parent] set to [shared_parent_key(kind)], so that a constructed
    record has that parent, lookups read under it and [get_or_insert]
    stores under it. *)
Theorem parent_enforced (cls : model_class) (kwargs : kwargs_t)
    (s : datastore) :
  contains "_from_entity" kwargs = false ->
  let shared := shared_parent_key cls in
  (forall p, kwargs !! "parent" = Some p -> p <> PyKey shared ->
     (forall A R (fn : model_class -> A -> kwargs_t -> M R) args,
        enforce_parent fn cls args kwargs s = (Raised mismatch, s)) /\
     SingleEGModel_init cls tt kwargs s = (Raised mismatch, s) /\
     (forall id, get_by_id cls id kwargs s = (Raised mismatch, s)) /\
     (forall n, get_by_key_name cls n kwargs s = (Raised mismatch, s)) /\
     (forall n, get_or_insert cls n kwargs s = (Raised mismatch, s))) /\
  (kwargs !! "parent" = None \/ kwargs !! "parent" = Some (PyKey shared) ->
     (forall A R (fn : model_class -> A -> kwargs_t -> M R) args,
        enforce_parent fn cls args kwargs
        = fn cls args (<["parent" := PyKey shared]> kwargs)) /\
     (exists inst,
        SingleEGModel_init cls tt kwargs s = (Returned inst, s) /\
        i_parent inst = Some (PyKey shared)) /\
     (forall id,
        get_by_id cls id kwargs s
        = (Returned (s !! (shared ++ [(kind cls, KeyId id)])), s)) /\
     (forall n,
        get_by_key_name cls n kwargs s
        = (Returned (s !! (shared ++ [(kind cls, KeyName n)])), s)) /\
     (forall n, exists inst s',
        get_or_insert cls n kwargs s = (Returned inst, s') /\
        s' !! (shared ++ [(kind cls, KeyName n)]) = Some inst /\
        (s !! (shared ++ [(kind cls, KeyName n)]) = None ->
         i_parent inst = Some (PyKey shared)))).
Proof.
  intros Hfe shared. split.
  - intros p Hp Hne.
    split; [intros; eapply enforce_parent_mismatch; eauto|].
    unfold SingleEGModel_init, get_by_id, get_by_key_name, get_or_insert.
    repeat split; intros; eapply enforce_parent_mismatch; eauto.
  - intros Hp.
    split; [intros; apply enforce_parent_inject; assumption|].
    unfold SingleEGModel_init, get_by_id, get_by_key_name, get_or_insert.
    repeat split; intros; rewrite enforce_parent_inject by assumption.
    + eexists. split; [reflexivity|]. simpl. apply lookup_insert_eq.
    + unfold db_Model_get, full_key. rewrite lookup_insert_eq. reflexivity.
    + unfold db_Model_get, full_key. rewrite lookup_insert_eq. reflexivity.
    + unfold db_Model_get_or_insert, full_key. rewrite lookup_insert_eq.
      fold shared.
      destruct (s !! (shared ++ [(kind cls, KeyName n)])) as [r|] eqn:E.
      * exists r, s. repeat split; [exact E|]. intros; discriminate.
      * eexists _, _. split; [reflexivity|].
        split; [apply lookup_insert_eq|]. intros _. reflexivity.
Qed.

Lemma parent_enforced_witness :
  contains "_from_entity" (∅ : kwargs_t) = false /\
  exists inst,
    SingleEGModel_init Person tt ∅ ∅ = (Returned inst, ∅) /\
    i_parent inst = Some (PyKey (shared_parent_key Person)).
Proof.
  split; [reflexivity|].
  apply (parent_enforced Person ∅ ∅); [reflexivity|]. left. reflexivity.
Defined.

Lemma has_string_id_false (self : Entity) :
  has_string_id self = false <->
  e_key self = None \/
  exists k, e_key self = Some k /\
            (string_id k = None \/ string_id k = Some "").
Proof.
  unfold has_string_id. destruct (e_key self) as [k|]; [|intuition].
  destruct (string_id k) as [name|] eqn:E.
  - destruct (String.eqb_spec name ""); simpl; subst.
    + split; [|reflexivity]. intros _. right. exists k. auto.
    + split; [discriminate|].
      intros [H|(k' & H & [H'|H'])]; try discriminate;
        injection H as <-; congruence.
  - split; [|reflexivity]. intros _. right. exists k. auto.
Qed.

(** C7.  Putting a record that has no non-empty string id (no key, a numeric
    id, or an empty name) raises the assertion failure without calling the
    storage layer: whatever [ndb.Model.put] would do, the datastore is left
    as it was. *)
Theorem string_id_required (super_put : Entity -> M Key) (self : Entity)
    (s : datastore) :
  has_string_id self = false ->
  (e_key self = None \/
   exists k, e_key self = Some k /\
             (string_id k = None \/ string_id k = Some "")) /\
  StringIdModel_put super_put self s
  = (Raised (AssertionError "string id required but not provided"), s).
Proof.
  intros H. split; [apply has_string_id_false, H|].
  unfold StringIdModel_put, bind, assert_. rewrite H. reflexivity.
Qed.

Lemma string_id_required_witness :
  has_string_id unsaved = false /\
  has_string_id numbered = false /\
  StringIdModel_put ndb_Model_put unsaved ∅
  = (Raised (AssertionError "string id required but not provided"), ∅) /\
  StringIdModel_put ndb_Model_put numbered ∅
  = (Raised (AssertionError "string id required but not provided"), ∅).
Proof.
  split; [reflexivity|]. split; [reflexivity|]. split.
  - apply (string_id_required ndb_Model_put unsaved ∅). reflexivity.
  - apply (string_id_required ndb_Model_put numbered ∅). reflexivity.
Defined.

Lemma parent_ok_cases (cls : model_class) (kwargs : kwargs_t) :
  parent_ok cls kwargs = true ->
  kwargs !! "parent" = None \/
  kwargs !! "parent" = Some (PyKey (shared_parent_key cls)).
Proof.
  unfold parent_ok, contains, parent_is.
  destruct (kwargs !! "parent") as [p|]; [|auto]. simpl.
  intros H. apply bool_decide_eq_true_1 in H. auto.
Qed.

(** What [get_or_insert] does once the decorator has let the call through. *)
Lemma get_or_insert_enforced (cls : model_class) (n : string)
    (kwargs : kwargs_t) (s : datastore) :
  contains "_from_entity" kwargs = false ->
  parent_ok cls kwargs = true ->
  get_or_insert cls n kwargs s
  = match s !! (shared_parent_key cls ++ [(kind cls, KeyName n)]) with
    | Some r => (Returned r, s)
    | None =>
        let r := {| i_kind := kind cls; i_id := Some (KeyName n);
                    i_parent := Some (PyKey (shared_parent_key cls));
                    i_props := delete "parent" kwargs |} in
        (Returned r, <[shared_parent_key cls ++ [(kind cls, KeyName n)] := r]> s)
    end.
Proof.
  intros Hfe Hp. unfold get_or_insert.
  rewrite enforce_parent_inject by auto using parent_ok_cases.
  unfold db_Model_get_or_insert, full_key. rewrite lookup_insert_eq.
  rewrite delete_insert_eq. reflexivity.
Qed.

(** A call of [get_or_insert] leaves every record that exists in place. *)
Lemma get_or_insert_keeps (cls : model_class) (n : string)
    (kwargs : kwargs_t) (s : datastore) (k : Key) (r : Instance) :
  s !! k = Some r ->
  snd (get_or_insert cls n kwargs s) !! k = Some r.
Proof.
  intros Hk. unfold get_or_insert, enforce_parent, bind.
  destruct (negb (contains "_from_entity" kwargs)); simpl.
  - destruct (contains "parent" kwargs); simpl.
    + unfold assert_. destruct (parent_is _ _); simpl; [|exact Hk].
      unfold db_Model_get_or_insert.
      match goal with |- context [s !! ?key] =>
        destruct (s !! key) eqn:E; simpl; [exact Hk|];
        rewrite lookup_insert_ne; [exact Hk|congruence] end.
    + unfold db_Model_get_or_insert.
      match goal with |- context [s !! ?key] =>
        destruct (s !! key) eqn:E; simpl; [exact Hk|];
        rewrite lookup_insert_ne; [exact Hk|congruence] end.
  - unfold db_Model_get_or_insert.
    match goal with |- context [s !! ?key] =>
      destruct (s !! key) eqn:E; simpl; [exact Hk|];
      rewrite lookup_insert_ne; [exact Hk|congruence] end.
Qed.

(** C8.  [get_or_insert] is idempotent.  Take keyword arguments that are
    defaults: no ['_from_entity'], and no parent or the shared one.  A first
    call for [(kind, key_name)] succeeds and returns a record [r] stored
    under the shared parent; if none existed, [r] carries the defaults of
    that call.  A second call with any other such defaults returns the same
    [r] and leaves the datastore unchanged, and no later call whatever
    overwrites [r]. *)
Theorem get_or_insert_idempotent (cls : model_class) (key_name : string)
    (defaults1 : kwargs_t) (s : datastore) :
  contains "_from_entity" defaults1 = false ->
  parent_ok cls defaults1 = true ->
  let key := shared_parent_key cls ++ [(kind cls, KeyName key_name)] in
  exists r s1,
    get_or_insert cls key_name defaults1 s = (Returned r, s1) /\
    s1 !! key = Some r /\
    (forall k, k <> key -> s1 !! k = s !! k) /\
    (s !! key = None ->
     i_props r = delete "parent" defaults1 /\
     i_parent r = Some (PyKey (shared_parent_key cls))) /\
    (forall defaults2 : kwargs_t,
       contains "_from_entity" defaults2 = false ->
       parent_ok cls defaults2 = true ->
       get_or_insert cls key_name defaults2 s1 = (Returned r, s1)) /\
    (forall defaults2 : kwargs_t,
       snd (get_or_insert cls key_name defaults2 s1) !! key = Some r).
Proof.
  intros Hfe Hp key.
  rewrite get_or_insert_enforced by assumption. fold key.
  destruct (s !! key) as [r|] eqn:E.
  - exists r, s. repeat split; auto.
    + intros; discriminate.
    + intros; discriminate.
    + intros d2 H1 H2. rewrite get_or_insert_enforced by assumption.
      fold key. rewrite E. reflexivity.
    + intros d2. apply get_or_insert_keeps, E.
  - eexists _, _. split; [reflexivity|].
    split; [apply lookup_insert_eq|].
    split; [intros k Hk; apply lookup_insert_ne; congruence|].
    split; [intros _; split; reflexivity|].
    split.
    + intros d2 H1 H2. rewrite get_or_insert_enforced by assumption.
      fold key. rewrite lookup_insert_eq. reflexivity.
    + intros d2. apply get_or_insert_keeps, lookup_insert_eq.
Qed.

Lemma get_or_insert_idempotent_witness :
  contains "_from_entity" ({[ "age" := PyInt 3 ]} : kwargs_t) = false /\
  parent_ok Person ({[ "age" := PyInt 3 ]} : kwargs_t) = true /\
  exists r s1,
    get_or_insert Person "bob" {[ "age" := PyInt 3 ]} ∅ = (Returned r, s1) /\
    get_or_insert Person "bob" {[ "age" := PyInt 4 ]} s1 = (Returned r, s1) /\
    i_props r = {[ "age" := PyInt 3 ]}.
Proof.
  split; [reflexivity|]. split; [reflexivity|].
  destruct (get_or_insert_idempotent Person "bob" {[ "age" := PyInt 3 ]} ∅)
    as (r & s1 & H1 & _ & _ & H4 & H5 & _); [reflexivity|reflexivity|].
  exists r, s1. split; [exact H1|]. split.
  - apply H5; reflexivity.
  - destruct (H4 eq_refl) as [-> _]. reflexivity.
Defined.

End ModelsFacts.

(* ===================================================================== *)
(** * Properties of testutil.py *)
(* ===================================================================== *)

Section TestutilFacts.
Import Testutil.

(** ** The recursion of _assert_equals *)

Lemma insert_sorted_perm x l : Permutation (x :: l) (insert_sorted x l).
Proof.
  induction l as [|y l IH]; simpl; [reflexivity|].
  destruct (py_lt y x); [|reflexivity].
  rewrite perm_swap. constructor. exact IH.
Qed.

Lemma sorted_perm xs : Permutation xs (sorted xs).
Proof.
  induction xs as [|x xs IH]; simpl; [constructor|].
  rewrite <- insert_sorted_perm. constructor. exact IH.
Qed.

Lemma sorted_length xs : length (sorted xs) = length xs.
Proof. symmetry. apply Permutation_length, sorted_perm. Qed.

Lemma sorted_In x xs : In x (sorted xs) -> In x xs.
Proof. apply Permutation_in. symmetry. apply sorted_perm. Qed.

Lemma depth_in_seq x xs : In x xs -> depth x <= list_max (map depth xs).
Proof.
  intros H. induction xs as [|y xs IH]; [destruct H|].
  simpl. destruct H as [->|H]; [lia|]. specialize (IH H). lia.
Qed.

Lemma depth_dict_get items k :
  depth (dict_get items k)
  <= list_max (map (fun kv : string * value => let (_, w) := kv in depth w) items).
Proof.
  unfold dict_get. induction items as [|[k' v] items IH]; simpl; [lia|].
  destruct (String.eqb k' k); [lia|].
  destruct (dict_lookup k items); simpl in *; lia.
Qed.

Lemma depth_child_seq expected e x :
  as_seq expected = Some e -> In x e -> depth x < depth expected.
Proof.
  intros He Hx. apply depth_in_seq in Hx.
  destruct expected; try discriminate; injection He as ->; simpl; lia.
Qed.

Lemma depth_child_dict expected e k :
  as_dict expected = Some e -> depth (dict_get e k) < depth expected.
Proof.
  intros He. pose proof (depth_dict_get e k).
  destruct expected; try discriminate; injection He as ->; simpl; lia.
Qed.

Lemma in_enumerate_combine (i : nat) (x y : value) e a :
  In (i, (x, y)) (enumerate (combine e a)) -> In x e.
Proof.
  unfold enumerate. intros H. apply in_combine_r in H.
  apply in_combine_l in H. exact H.
Qed.

Section BodyLemmas.
Variables r1 r2 : value -> value -> bool -> option verdict.
Variable io : bool.

Lemma dict_loop_ext keys e a :
  (forall k, In k keys ->
     r1 (dict_get e k) (dict_get a k) io = r2 (dict_get e k) (dict_get a k) io) ->
  dict_loop r1 io keys e a = dict_loop r2 io keys e a.
Proof.
  induction keys as [|k keys IH]; intros H; simpl; [reflexivity|].
  rewrite <- (H k) by (left; reflexivity).
  destruct (r1 _ _ io) as [[| |]|]; try reflexivity.
  apply IH. intros; apply H; right; assumption.
Qed.

Lemma seq_loop_ext pairs :
  (forall i x y, In (i, (x, y)) pairs -> r1 x y io = r2 x y io) ->
  seq_loop r1 io pairs = seq_loop r2 io pairs.
Proof.
  induction pairs as [|[i [x y]] pairs IH]; intros H; simpl; [reflexivity|].
  rewrite <- (H i x y) by (left; reflexivity).
  destruct (r1 _ _ io) as [[| |]|]; try reflexivity.
  apply IH. intros; eapply H; right; eassumption.
Qed.

Lemma body_ext expected actual :
  (forall x y, depth x < depth expected -> r1 x y io = r2 x y io) ->
  assert_equals_body r1 io expected actual
  = assert_equals_body r2 io expected actual.
Proof.
  intros H. unfold assert_equals_body.
  destruct expected as [| | |addr re| | |]; try reflexivity;
    (destruct (as_dict _) as [e|] eqn:He;
     [destruct (as_dict actual) as [a|] eqn:Ha|]);
    try (apply dict_loop_ext; intros; apply H;
         eapply depth_child_dict; eassumption);
    (destruct (as_seq _) as [e'|] eqn:He';
     [destruct (as_seq actual) as [a'|] eqn:Ha'|]); try reflexivity;
    (destruct (Nat.eqb _ _); [|reflexivity]);
    apply seq_loop_ext; intros i x y Hin; apply H;
    apply in_enumerate_combine in Hin;
    (eapply depth_child_seq; [eassumption|]);
    destruct io; auto using sorted_In.
Qed.
End BodyLemmas.

(** Fuel beyond the depth of [expected] changes nothing. *)
Lemma rec_stable n :
  forall e a io, depth e < n ->
    assert_equals_rec n e a io = assert_equals_rec (S (depth e)) e a io.
Proof.
  induction n as [n IH] using lt_wf_ind. intros e a io Hd.
  destruct n as [|n']; [lia|]. simpl.
  apply body_ext. intros x y Hx.
  rewrite (IH n') by lia.
  rewrite (IH (depth e)) by lia. reflexivity.
Qed.

(** _assert_equals satisfies the recursive equation of the source. *)
Lemma _assert_equals_unfold e a io :
  _assert_equals e a io = assert_equals_body _assert_equals io e a.
Proof.
  unfold _assert_equals at 1. simpl. apply body_ext.
  intros x y Hx. unfold _assert_equals. apply rec_stable, Hx.
Qed.





(** ** Patterns *)

Lemma append_nil_inv s1 s2 :
  String.append s1 s2 = "" -> s1 = "" /\ s2 = "".
Proof. destruct s1; simpl; [auto|discriminate]. Qed.

Lemma cat_inv r1 r2 s :
  matches (ReCat r1 r2) s ->
  exists s1 s2, s = String.append s1 s2 /\ matches r1 s1 /\ matches r2 s2.
Proof.
  intros H. inversion H; subst.
  do 2 eexists. split; [reflexivity|split; eassumption].
Qed.

Lemma nullable_spec re : nullable re = true <-> matches re "".
Proof.
  induction re as [| | c | | r1 IH1 r2 IH2 | r1 IH1 r2 IH2 | r IH]; simpl.
  - split; [discriminate|]. intros H. inversion H.
  - split; [constructor|reflexivity].
  - split; [discriminate|]. intros H. inversion H.
  - split; [discriminate|]. intros H. inversion H.
  - rewrite andb_true_iff, IH1, IH2. split.
    + intros [H1 H2]. apply (M_cat r1 r2 "" "" H1 H2).
    + intros H. apply cat_inv in H. destruct H as (s1 & s2 & E & H1 & H2).
      symmetry in E. apply append_nil_inv in E. destruct E as [-> ->]. auto.
  - rewrite orb_true_iff, IH1, IH2. split.
    + intros [H|H]; [apply M_alt_l|apply M_alt_r]; exact H.
    + intros H. inversion H; subst; auto.
  - split; [constructor|reflexivity].
Qed.

(** A non-empty word of a starred pattern begins with a non-empty word of
    the pattern. *)
Lemma star_cons_inv r c s :
  matches (ReStar r) (String c s) ->
  exists s1 s2,
    s = String.append s1 s2 /\ matches r (String c s1) /\
    matches (ReStar r) s2.
Proof.
  intros H. remember (ReStar r) as rs eqn:Er.
  remember (String c s) as w eqn:Ew. revert c s Ew.
  induction H as [| | | | | | |r' s1 s2 H1 _ H2 IH2]; intros c0 s0 Ew;
    try discriminate.
  injection Er as ->. destruct s1 as [|c1 s1]; simpl in Ew.
  - apply IH2; [reflexivity|exact Ew].
  - injection Ew as -> <-. exists s1, s2. auto.
Qed.

Lemma deriv_spec re :
  forall c s, matches (deriv c re) s <-> matches re (String c s).
Proof.
  induction re as [| | d | | r1 IH1 r2 IH2 | r1 IH1 r2 IH2 | r IH];
    intros c s; simpl.
  - split; intros H; inversion H.
  - split; intros H; inversion H.
  - destruct (Ascii.eqb_spec c d) as [->|Hne].
    + split; intros H; inversion H; subst; constructor.
    + split; intros H; inversion H; subst; congruence.
  - destruct (Ascii.eqb_spec c newline) as [->|Hne].
    + split; intros H; inversion H; subst; congruence.
    + split; intros H; inversion H; subst; constructor; assumption.
  - assert (Hcat : matches (ReCat (deriv c r1) r2) s ->
                   matches (ReCat r1 r2) (String c s)).
    { intros H. apply cat_inv in H. destruct H as (s1 & s2 & -> & H1 & H2).
      apply IH1 in H1. apply (M_cat r1 r2 (String c s1) s2 H1 H2). }
    assert (Hinv : matches (ReCat r1 r2) (String c s) ->
                   matches (ReCat (deriv c r1) r2) s \/
                   (matches r1 "" /\ matches r2 (String c s))).
    { intros H. apply cat_inv in H. destruct H as (s1 & s2 & E & H1 & H2).
      destruct s1 as [|c1 s1].
      - change (String c s = s2) in E. subst. auto.
      - change (String c s = String c1 (String.append s1 s2)) in E.
        injection E as <- ->. left. apply IH1 in H1.
        apply (M_cat _ _ s1 s2 H1 H2). }
    destruct (nullable r1) eqn:En.
    + split.
      * intros H. inversion H; subst; [auto|].
        apply nullable_spec in En.
        apply (M_cat r1 r2 "" (String c s) En). apply IH2. assumption.
      * intros H. destruct (Hinv H) as [H'|[_ H']];
          [apply M_alt_l; exact H'|apply M_alt_r, IH2; exact H'].
    + split; [exact Hcat|]. intros H.
      destruct (Hinv H) as [H'|[H' _]]; [exact H'|].
      apply nullable_spec in H'. congruence.
  - split.
    + intros H. inversion H; subst;
        [apply M_alt_l, IH1|apply M_alt_r, IH2]; assumption.
    + intros H. inversion H; subst;
        [apply M_alt_l, IH1|apply M_alt_r, IH2]; assumption.
  - split.
    + intros H. apply cat_inv in H. destruct H as (s1 & s2 & -> & H1 & H2).
      apply IH in H1. apply (M_star_cons r (String c s1) s2 H1 H2).
    + intros H. apply star_cons_inv in H.
      destruct H as (s1 & s2 & -> & H1 & H2).
      apply M_cat; [apply IH; exact H1|exact H2].
Qed.

(** [fullmatch] decides the language of the pattern. *)
Lemma fullmatch_spec s : forall re, fullmatch re s = true <-> matches re s.
Proof.
  induction s as [|c s IH]; intros re; simpl.
  - apply nullable_spec.
  - rewrite IH. apply deriv_spec.
Qed.

(** [re_match] accepts exactly the strings with a prefix in the language. *)
Lemma re_match_prefix s :
  forall re,
    re_match re s = true <->
    exists p rest, s = String.append p rest /\ fullmatch re p = true.
Proof.
  induction s as [|c s IH]; intros re; simpl.
  - rewrite orb_false_r. split.
    + intros H. exists "", "". auto.
    + intros (p & rest & Hs & Hp). destruct p; [exact Hp|discriminate].
  - split.
    + intros H. apply orb_true_iff in H. destruct H as [H|H].
      * exists "", (String c s). auto.
      * apply IH in H. destruct H as (p & rest & -> & Hp).
        exists (String c p), rest. auto.
    + intros (p & rest & Hs & Hp). apply orb_true_iff.
      destruct p as [|c' p]; [left; exact Hp|right].
      simpl in Hs. injection Hs as <- ->. apply IH. eauto.
Qed.



(** ** The two loops *)

Section LoopFacts.
Variable r : value -> value -> bool -> option verdict.
Variable io : bool.

Lemma dict_loop_pass keys e a :
  dict_loop r io keys e a = Some Pass <->
  forall k, In k keys -> r (dict_get e k) (dict_get a k) io = Some Pass.
Proof.
  induction keys as [|k keys IH]; simpl.
  - split; [intros _ k []|reflexivity].
  - split.
    + intros H k' [<-|Hk'];
        destruct (r (dict_get e k) (dict_get a k) io) as [[| |]|];
        try discriminate; [reflexivity|]. apply IH; assumption.
    + intros H. rewrite (H k) by (left; reflexivity).
      apply IH. intros; apply H; right; assumption.
Qed.


Lemma dict_loop_only_failure keys e a k v :
  In k keys ->
  (forall k', In k' keys -> k' <> k ->
     r (dict_get e k') (dict_get a k') io = Some Pass) ->
  r (dict_get e k) (dict_get a k) io = Some v -> v <> Pass ->
  dict_loop r io keys e a
  = Some (match v with Fail f => Fail (reraise (Some k) f) | _ => v end).
Proof.
  intros Hin Hothers Hk Hv.
  induction keys as [|k0 keys IH]; [destruct Hin|]. simpl.
  destruct (string_dec k0 k) as [->|Hne].
  - rewrite Hk. destruct v; congruence.
  - rewrite Hothers by (auto; left; reflexivity).
    destruct Hin as [?|Hin]; [congruence|].
    apply IH; [exact Hin|]. intros; apply Hothers; auto. right; assumption.
Qed.

Lemma seq_loop_pass pairs :
  seq_loop r io pairs = Some Pass <->
  forall i x y, In (i, (x, y)) pairs -> r x y io = Some Pass.
Proof.
  induction pairs as [|[i [x y]] pairs IH]; simpl.
  - split; [intros _ ? ? ? []|reflexivity].
  - split.
    + intros H i' x' y' [E|Hin];
        destruct (r x y io) as [[| |]|] eqn:Er; try discriminate.
      * injection E as <- <- <-. exact Er.
      * eapply IH; eassumption.
    + intros H. rewrite (H i x y) by (left; reflexivity).
      apply IH. intros; eapply H; right; eassumption.
Qed.


Lemma seq_loop_first_failure (l : list (value * value)) :
  forall s i x y f,
    nth_error l i = Some (x, y) ->
    (forall j x' y', j < i -> nth_error l j = Some (x', y') ->
       r x' y' io = Some Pass) ->
    r x y io = Some (Fail f) ->
    seq_loop r io (combine (seq s (length l)) l)
    = Some (Fail (reraise (Some (str_of_nat (s + i))) f)).
Proof.
  induction l as [|[x0 y0] l IH]; intros s i x y f Hi Hbefore Hf;
    [destruct i; discriminate|].
  destruct i as [|i]; simpl in *.
  - injection Hi as -> ->. rewrite Hf, Nat.add_0_r. reflexivity.
  - rewrite (Hbefore 0 x0 y0) by (auto; lia).
    rewrite (IH (S s) i x y f Hi); [|
      intros j x' y' Hj; apply (Hbefore (S j)); lia | exact Hf].
    rewrite Nat.add_succ_r. reflexivity.
Qed.
End LoopFacts.

Lemma in_enumerate {A} (l : list A) i p :
  In (i, p) (enumerate l) <-> nth_error l i = Some p.
Proof.
  unfold enumerate.
  assert (G : forall s, In (i, p) (combine (seq s (length l)) l) <->
                        s <= i /\ nth_error l (i - s) = Some p).
  { induction l as [|q l IH]; intros s; simpl.
    - split; [intros []|]. intros [_ H]. destruct (i - s); discriminate.
    - rewrite IH. split.
      + intros [E|[Hs Hn]].
        * injection E as -> ->. rewrite Nat.sub_diag. auto.
        * split; [lia|]. replace (i - s) with (S (i - S s)) by lia. exact Hn.
      + intros [Hs Hn]. destruct (Nat.eq_dec s i) as [->|Hne].
        * rewrite Nat.sub_diag in Hn. injection Hn as ->. auto.
        * right. split; [lia|].
          replace (i - s) with (S (i - S s)) in Hn by lia. exact Hn. }
  rewrite G, Nat.sub_0_r. intuition lia.
Qed.

Lemma nth_error_combine {A B} (e : list A) (a : list B) i x y :
  nth_error (combine e a) i = Some (x, y) <->
  nth_error e i = Some x /\ nth_error a i = Some y.
Proof.
  revert a i. induction e as [|x0 e IH]; intros [|y0 a] [|i]; simpl;
    try (split; [discriminate|intros [? ?]; discriminate]).
  - split; [intros H; injection H as -> ->; auto|].
    intros [H1 H2]. congruence.
  - apply IH.
Qed.

Lemma in_dedup k ks : In k (dedup ks) <-> In k ks.
Proof.
  induction ks as [|k0 ks IH]; simpl; [reflexivity|].
  destruct (mem_string k0 ks) eqn:E; simpl; rewrite IH; [|reflexivity].
  split; [auto|]. intros [<-|H]; [|exact H].
  unfold mem_string in E. apply existsb_exists in E.
  destruct E as (k' & Hin & Heq). apply String.eqb_eq in Heq. subst. exact Hin.
Qed.

Lemma in_union_keys k e a :
  In k (union_keys e a) <-> In k (dict_keys e) \/ In k (dict_keys a).
Proof. unfold union_keys. rewrite in_dedup. apply in_app_iff. Qed.

Lemma dict_lookup_in k v items :
  dict_lookup k items = Some v -> In k (dict_keys items).
Proof.
  induction items as [|[k0 v0] items IH]; simpl; [discriminate|].
  destruct (String.eqb_spec k0 k); [auto|]. intros H. right. auto.
Qed.

(** ** Mappings *)

Lemma _assert_equals_dict e a io :
  _assert_equals (VDict e) (VDict a) io
  = dict_loop _assert_equals io (union_keys e a) e a.
Proof. rewrite _assert_equals_unfold. reflexivity. Qed.

Lemma compare_none_with v io :
  v <> VNone -> _assert_equals VNone v io = Some (fail (NotEqual VNone v)).
Proof.
  intros H. rewrite _assert_equals_unfold.
  destruct v; try reflexivity. congruence.
Qed.

Lemma compare_with_none v io :
  v <> VNone ->
  _assert_equals v VNone io
  = Some (if is_pattern v then TypeError else fail (NotEqual v VNone)).
Proof.
  intros H. rewrite _assert_equals_unfold.
  destruct v; try reflexivity. congruence.
Qed.

(** C4, as the claim states it, fails: the key [a] is present on one side
    only, and the comparison passes, because its value is None. *)
Lemma none_valued_key_passes :
  _assert_equals (VDict [("a", VNone)]) (VDict []) false = Some Pass /\
  In "a" (dict_keys [("a", VNone)]) /\
  ~ In "a" (dict_keys ([] : list (string * value))).
Proof. split; [reflexivity|]. split; [left; reflexivity|intros []]. Qed.

(** C4 (amended).  Two mappings are compared over the union of their key
    sets, recursing into the values, a key missing on one side reading as
    None there.  The comparison passes exactly when every key passes; when
    one key alone fails, the failure is that key's with [[key]] put before
    its path.  A key present on one side only is a mismatch at that key
    when its value is not None (a pattern in expected against a missing key
    raises the engine's TypeError instead); when its value is None it
    compares equal to the missing side. *)
Theorem dict_comparison (e a : list (string * value)) (in_order : bool) :
  _assert_equals (VDict e) (VDict a) in_order
  = dict_loop _assert_equals in_order (union_keys e a) e a /\
  (forall k, In k (union_keys e a) <->
             In k (dict_keys e) \/ In k (dict_keys a)) /\
  (_assert_equals (VDict e) (VDict a) in_order = Some Pass <->
   forall k, In k (union_keys e a) ->
     _assert_equals (dict_get e k) (dict_get a k) in_order = Some Pass) /\
  (forall k f, In k (union_keys e a) ->
     (forall k', In k' (union_keys e a) -> k' <> k ->
        _assert_equals (dict_get e k') (dict_get a k') in_order = Some Pass) ->
     _assert_equals (dict_get e k) (dict_get a k) in_order = Some (Fail f) ->
     _assert_equals (VDict e) (VDict a) in_order
     = Some (Fail (reraise (Some k) f))) /\
  (forall k v, dict_lookup k e = None -> dict_lookup k a = Some v ->
     v <> VNone ->
     _assert_equals (dict_get e k) (dict_get a k) in_order
     = Some (Fail {| f_path := ""; f_leaf := NotEqual VNone v |}) /\
     _assert_equals (VDict e) (VDict a) in_order <> Some Pass) /\
  (forall k v, dict_lookup k e = Some v -> dict_lookup k a = None ->
     v <> VNone ->
     _assert_equals (dict_get e k) (dict_get a k) in_order
     = Some (if is_pattern v then TypeError
             else Fail {| f_path := ""; f_leaf := NotEqual v VNone |}) /\
     _assert_equals (VDict e) (VDict a) in_order <> Some Pass) /\
  (forall k,
     dict_lookup k e = Some VNone /\ dict_lookup k a = None \/
     dict_lookup k e = None /\ dict_lookup k a = Some VNone ->
     _assert_equals (dict_get e k) (dict_get a k) in_order = Some Pass) /\
  _assert_equals (VDict [("a", VInt 1)]) (VDict [("a", VInt 1); ("b", VInt 2)])
                 in_order
  = Some (Fail {| f_path := "[b] "; f_leaf := NotEqual VNone (VInt 2) |}).
Proof.
  split; [apply _assert_equals_dict|].
  split; [intros; apply in_union_keys|].
  split; [rewrite _assert_equals_dict; apply dict_loop_pass|].
  split.
  { intros k f Hin Hothers Hk. rewrite _assert_equals_dict.
    rewrite (dict_loop_only_failure _ _ _ _ _ k (Fail f)); auto; discriminate. }
  split.
  { intros k v He Ha Hv. unfold dict_get at 1 2. rewrite He, Ha.
    split; [apply compare_none_with, Hv|].
    rewrite _assert_equals_dict, dict_loop_pass. intros H.
    specialize (H k). unfold dict_get in H. rewrite He, Ha in H.
    rewrite compare_none_with in H by exact Hv.
    discriminate H. apply in_union_keys. right. eapply dict_lookup_in, Ha. }
  split.
  { intros k v He Ha Hv. unfold dict_get at 1 2. rewrite He, Ha.
    split; [rewrite compare_with_none by exact Hv; reflexivity|].
    rewrite _assert_equals_dict, dict_loop_pass. intros H.
    specialize (H k). unfold dict_get in H. rewrite He, Ha in H.
    rewrite compare_with_none in H by exact Hv.
    destruct (is_pattern v); discriminate H;
      apply in_union_keys; left; eapply dict_lookup_in, He. }
  split.
  { intros k [[He Ha]|[He Ha]]; unfold dict_get; rewrite He, Ha;
      rewrite _assert_equals_unfold; reflexivity. }
  destruct in_order; reflexivity.
Qed.

(** ** The default order *)

Lemma value_nested_ind (P : value -> Prop) :
  P VNone -> (forall n, P (VInt n)) -> (forall s, P (VStr s)) ->
  (forall addr re, P (VPattern addr re)) ->
  (forall xs, Forall P xs -> P (VList xs)) ->
  (forall xs, Forall P xs -> P (VTuple xs)) ->
  (forall items, Forall (fun kv : string * value => P (snd kv)) items ->
                 P (VDict items)) ->
  forall v, P v.
Proof.
  intros HN HI HS HP HL HT HD. fix IH 1.
  intros [|n|s|addr re|xs|xs|items];
    [apply HN|apply HI|apply HS|apply HP| | |].
  - apply HL. induction xs as [|x xs IHxs]; constructor; [apply IH|exact IHxs].
  - apply HT. induction xs as [|x xs IHxs]; constructor; [apply IH|exact IHxs].
  - apply HD. induction items as [|[k v] items IHi]; constructor;
      [apply IH|exact IHi].
Qed.

Lemma mem_string_In k ks : mem_string k ks = true <-> In k ks.
Proof.
  unfold mem_string. rewrite existsb_exists. split.
  - intros (k' & Hin & Heq). apply String.eqb_eq in Heq. subst. exact Hin.
  - intros H. exists k. split; [exact H|apply String.eqb_refl].
Qed.

Lemma distinct_NoDup ks : distinct ks = true -> List.NoDup ks.
Proof.
  induction ks as [|k ks IH]; simpl; [constructor|].
  intros H. apply andb_true_iff in H. destruct H as [Hk Hrest].
  constructor; [|apply IH, Hrest].
  intros Hin. apply mem_string_In in Hin. rewrite Hin in Hk. discriminate.
Qed.

Lemma dict_lookup_Some_In k v items :
  dict_lookup k items = Some v -> In (k, v) items.
Proof.
  induction items as [|[k0 v0] items IH]; simpl; [discriminate|].
  destruct (String.eqb_spec k0 k) as [->|Hne].
  - intros H. injection H as ->. auto.
  - auto.
Qed.

Lemma dict_lookup_of_key k items :
  In k (dict_keys items) -> exists v, dict_lookup k items = Some v.
Proof.
  induction items as [|[k0 v0] items IH]; simpl; [intros []|].
  destruct (String.eqb_spec k0 k) as [->|Hne]; [eauto|].
  intros [?|H]; [congruence|auto].
Qed.

Lemma dict_lookup_distinct k v items :
  List.NoDup (dict_keys items) -> In (k, v) items ->
  dict_lookup k items = Some v.
Proof.
  induction items as [|[k0 v0] items IH]; simpl; [intros _ []|].
  intros Hnd Hin. inversion Hnd as [|? ? Hk0 Hrest]. subst.
  destruct Hin as [E|Hin].
  - injection E as -> ->. rewrite String.eqb_refl. reflexivity.
  - destruct (String.eqb_spec k0 k) as [->|Hne]; [|auto].
    exfalso. apply Hk0. apply (in_map fst) in Hin. exact Hin.
Qed.

Lemma dict_sub_spec f b a :
  dict_sub f b a = true <->
  forall k v, In (k, v) a ->
    exists w, dict_lookup k b = Some w /\ f v w = true.
Proof.
  induction a as [|[k0 v0] a IH]; simpl.
  - split; [intros _ k v []|reflexivity].
  - rewrite andb_true_iff, IH. split.
    + intros [H0 Hrest] k v [E|Hin]; [|auto].
      injection E as <- <-. destruct (dict_lookup k0 b); [eauto|discriminate].
    + intros H. split; [|intros; apply H; auto].
      destruct (H k0 v0) as (w & -> & Hw); auto.
Qed.

(** Between dicts of the same size without repeated keys, inclusion goes
    both ways. *)
Lemma dict_sub_flip (f g : value -> value -> bool) a b :
  List.NoDup (dict_keys a) -> List.NoDup (dict_keys b) ->
  length a = length b ->
  (forall k v w, In (k, v) a -> In (k, w) b -> f v w = g w v) ->
  dict_sub f b a = true -> dict_sub g a b = true.
Proof.
  intros Ha Hb Hlen Hfg Hsub. rewrite dict_sub_spec in *.
  assert (Hincl : incl (dict_keys b) (dict_keys a)).
  { apply NoDup_length_incl; [exact Ha| |].
    - unfold dict_keys. rewrite !length_map. lia.
    - intros k Hk. apply dict_lookup_of_key in Hk. destruct Hk as (v & Hv).
      apply dict_lookup_Some_In in Hv. destruct (Hsub k v Hv) as (w & Hw & _).
      eapply dict_lookup_in, Hw. }
  intros k w Hin.
  assert (Hk : In k (dict_keys a)).
  { apply Hincl. apply (in_map fst) in Hin. exact Hin. }
  apply dict_lookup_of_key in Hk. destruct Hk as (v & Hv). exists v.
  split; [exact Hv|]. apply dict_lookup_Some_In in Hv.
  destruct (Hsub k v Hv) as (w' & Hw' & Hf).
  rewrite (dict_lookup_distinct k w b Hb Hin) in Hw'. injection Hw' as <-.
  rewrite <- (Hfg k v w Hv Hin). exact Hf.
Qed.

Lemma well_formed_dict items :
  well_formed (VDict items) = true ->
  List.NoDup (dict_keys items) /\
  forall k v, In (k, v) items -> well_formed v = true.
Proof.
  simpl. intros H. apply andb_true_iff in H. destruct H as [Hd Hv].
  split; [apply distinct_NoDup, Hd|]. intros k v Hin.
  rewrite forallb_forall in Hv. apply (Hv (k, v) Hin).
Qed.

Lemma all2_sym xs :
  forall ys,
    Forall (fun x => forall y, well_formed x = true -> well_formed y = true ->
                               py_eq x y = py_eq y x) xs ->
    forallb well_formed xs = true -> forallb well_formed ys = true ->
    all2 py_eq xs ys = all2 py_eq ys xs.
Proof.
  induction xs as [|x xs IH]; intros [|y ys] HF Hx Hy; try reflexivity.
  simpl in *. apply andb_true_iff in Hx, Hy.
  destruct Hx as [Hx Hxs], Hy as [Hy Hys].
  inversion HF as [|? ? H1 H2]. subst.
  rewrite (H1 y Hx Hy), (IH ys H2 Hxs Hys). reflexivity.
Qed.

(** [==] is symmetric on well-formed values. *)
Lemma py_eq_sym x :
  forall y, well_formed x = true -> well_formed y = true ->
    py_eq x y = py_eq y x.
Proof.
  induction x as [|n|s|addr re|xs IH|xs IH|a IH] using value_nested_ind;
    intros [|n'|s'|addr' re'|ys|ys|b] Hx Hy; try reflexivity.
  - apply Z.eqb_sym.
  - apply String.eqb_sym.
  - apply Pos.eqb_sym.
  - apply all2_sym; assumption.
  - apply all2_sym; assumption.
  - cbn [py_eq]. rewrite (Nat.eqb_sym (length b) (length a)).
    destruct (Nat.eqb_spec (length a) (length b)) as [Hlen|_]; [|reflexivity].
    destruct (well_formed_dict a Hx) as [Ha Hva].
    destruct (well_formed_dict b Hy) as [Hb Hvb].
    rewrite List.Forall_forall in IH. simpl.
    apply eq_true_iff_eq. split.
    + apply dict_sub_flip; auto.
      intros k v w Hv Hw. apply (IH (k, v) Hv); eauto.
    + apply dict_sub_flip; auto.
      intros k w v Hw Hv. symmetry. apply (IH (k, v) Hv); eauto.
Qed.

Lemma lex_cmp_antisym xs :
  forall ys,
    Forall (fun x => forall y, well_formed x = true -> well_formed y = true ->
                               py_cmp y x = CompOpp (py_cmp x y)) xs ->
    forallb well_formed xs = true -> forallb well_formed ys = true ->
    lex_cmp py_cmp ys xs = CompOpp (lex_cmp py_cmp xs ys).
Proof.
  induction xs as [|x xs IH]; intros [|y ys] HF Hx Hy; try reflexivity.
  simpl in *. apply andb_true_iff in Hx, Hy.
  destruct Hx as [Hx Hxs], Hy as [Hy Hys].
  inversion HF as [|? ? H1 H2]. subst.
  rewrite (py_eq_sym y x Hy Hx). destruct (py_eq x y); auto.
Qed.

Lemma min_key_In ks k : min_key ks = Some k -> In k ks.
Proof.
  revert k. induction ks as [|k0 ks IH]; simpl; [discriminate|].
  intros k. destruct (min_key ks) as [m|].
  - destruct (String.ltb k0 m); intros H; injection H as <-; auto.
  - intros H. injection H as <-. auto.
Qed.

Lemma characterize_key a b k :
  characterize a b = Some k -> exists v, dict_lookup k a = Some v.
Proof.
  unfold characterize. intros H. apply min_key_In in H.
  apply dict_lookup_of_key. unfold dict_keys in *.
  apply in_map_iff in H. destruct H as (kv & <- & Hin).
  apply filter_In in Hin. apply in_map. tauto.
Qed.

Lemma cmp_at_key_lookup cmp_to key a :
  cmp_at_key cmp_to key a
  = match dict_lookup key a with
    | Some v => cmp_to v
    | None => Eq
    end.
Proof.
  induction a as [|[k v] a IH]; simpl; [reflexivity|].
  destruct (String.eqb k key); [reflexivity|exact IH].
Qed.

(** [cmp] is antisymmetric on well-formed values. *)
Lemma py_cmp_antisym x :
  forall y, well_formed x = true -> well_formed y = true ->
    py_cmp y x = CompOpp (py_cmp x y).
Proof.
  induction x as [|n|s|addr re|xs IH|xs IH|a IH] using value_nested_ind;
    intros [|n'|s'|addr' re'|ys|ys|b] Hx Hy; try reflexivity.
  - apply Z.compare_antisym.
  - cbn [py_cmp]. rewrite (String.compare_antisym s s').
    destruct (String.compare s' s); reflexivity.
  - apply Pos.compare_antisym.
  - apply lex_cmp_antisym; assumption.
  - apply lex_cmp_antisym; assumption.
  - cbn [py_cmp]. rewrite (Nat.compare_antisym (length a) (length b)).
    destruct (Nat.compare (length a) (length b)); try reflexivity.
    cbn [CompOpp].
    destruct (characterize a b) as [ka|] eqn:Ea;
      destruct (characterize b a) as [kb|] eqn:Eb; try reflexivity.
    rewrite (String.compare_antisym ka kb).
    destruct (String.compare kb ka) eqn:Ek; try reflexivity.
    cbn [CompOpp]. rewrite !cmp_at_key_lookup.
    destruct (characterize_key a b ka Ea) as (v & Hv).
    destruct (characterize_key b a kb Eb) as (w & Hw).
    unfold dict_get. rewrite Hv, Hw.
    destruct (well_formed_dict a Hx) as [_ Hva].
    destruct (well_formed_dict b Hy) as [_ Hvb].
    apply dict_lookup_Some_In in Hv, Hw.
    rewrite List.Forall_forall in IH. apply (IH (ka, v) Hv); eauto.
Qed.

Lemma py_lt_asym x y :
  well_formed x = true -> well_formed y = true ->
  py_lt x y = true -> py_lt y x = false.
Proof.
  intros Hx Hy. unfold py_lt. rewrite (py_cmp_antisym x y Hx Hy).
  destruct (py_cmp x y); simpl; congruence.
Qed.

(** [sorted] puts well-formed values in order: no element is followed by a
    smaller one. *)
Lemma insert_sorted_ordered x l :
  well_formed x = true -> forallb well_formed l = true ->
  Sorted (fun u v => py_lt v u = false) l ->
  Sorted (fun u v => py_lt v u = false) (insert_sorted x l).
Proof.
  intros Hx. induction l as [|y l IH]; intros Hl Hs; simpl.
  - repeat constructor.
  - simpl in Hl. apply andb_true_iff in Hl. destruct Hl as [Hy Hl].
    inversion Hs as [|? ? Hs' Hhd]. subst.
    destruct (py_lt y x) eqn:E.
    + constructor; [apply IH; assumption|].
      destruct l as [|z l]; simpl.
      * constructor. apply py_lt_asym; assumption.
      * destruct (py_lt z x); constructor.
        -- inversion Hhd. assumption.
        -- apply py_lt_asym; assumption.
    + constructor; [exact Hs|]. constructor. exact E.
Qed.

Lemma sorted_ordered xs :
  forallb well_formed xs = true ->
  Sorted (fun u v => py_lt v u = false) (sorted xs).
Proof.
  induction xs as [|x xs IH]; simpl; [constructor|].
  intros H. apply andb_true_iff in H. destruct H as [Hx Hxs].
  apply insert_sorted_ordered; auto.
  rewrite forallb_forall in *. intros y Hy. apply Hxs.
  apply sorted_In, Hy.
Qed.

(** ** Sequences *)

Lemma _assert_equals_seq expected actual e a io :
  as_seq expected = Some e -> as_seq actual = Some a ->
  _assert_equals expected actual io
  = let e' := if io then e else sorted e in
    let a' := if io then a else sorted a in
    if Nat.eqb (length e') (length a')
    then seq_loop _assert_equals io (enumerate (combine e' a'))
    else Some (Fail {| f_path := "";
                       f_leaf := DifferentLengths (length e') (length a') |}).
Proof.
  intros He Ha. rewrite _assert_equals_unfold.
  destruct expected; try discriminate; injection He as ->;
    destruct actual; try discriminate; injection Ha as ->; reflexivity.
Qed.

Lemma compared_length (io : bool) xs :
  length (if io then xs else sorted xs) = length xs.
Proof. destruct io; [reflexivity|apply sorted_length]. Qed.

(** C3.  Two sequences (lists or tuples) are compared as follows: unless
    [in_order], each is sorted (a rearrangement of its elements in which,
    for well-formed values, none is followed by a smaller one);
    different lengths fail at once with the length message and no path;
    otherwise the elements are compared pairwise by index with the same
    [in_order], the first failing index [i] giving its failure with [[i]] put
    before its path.  The nested example passes out of order and fails in
    order with the path [[b] [0]]. *)
Theorem sequence_comparison (expected actual : value) (e a : list value)
    (in_order : bool) :
  as_seq expected = Some e -> as_seq actual = Some a ->
  let e' := if in_order then e else sorted e in
  let a' := if in_order then a else sorted a in
  Permutation e e' /\ Permutation a a' /\
  (in_order = false -> forallb well_formed e = true ->
   Sorted (fun u v => py_lt v u = false) e') /\
  (in_order = false -> forallb well_formed a = true ->
   Sorted (fun u v => py_lt v u = false) a') /\
  (length e <> length a ->
   _assert_equals expected actual in_order
   = Some (Fail {| f_path := "";
                   f_leaf := DifferentLengths (length e) (length a) |})) /\
  (length e = length a ->
   _assert_equals expected actual in_order
   = seq_loop _assert_equals in_order (enumerate (combine e' a')) /\
   (_assert_equals expected actual in_order = Some Pass <->
    forall i x y, nth_error e' i = Some x -> nth_error a' i = Some y ->
      _assert_equals x y in_order = Some Pass) /\
   (forall i x y f,
      nth_error e' i = Some x -> nth_error a' i = Some y ->
      (forall j x' y', j < i ->
         nth_error e' j = Some x' -> nth_error a' j = Some y' ->
         _assert_equals x' y' in_order = Some Pass) ->
      _assert_equals x y in_order = Some (Fail f) ->
      _assert_equals expected actual in_order
      = Some (Fail (reraise (Some (str_of_nat i)) f)))) /\
  _assert_equals nested_expected nested_actual false = Some Pass /\
  _assert_equals nested_expected nested_actual true
  = Some (Fail {| f_path := "[b] [0] "; f_leaf := NotEqual (VInt 1) (VInt 3) |}).
Proof.
  intros He Ha e' a'.
  assert (Le : length e' = length e) by apply compared_length.
  assert (La : length a' = length a) by apply compared_length.
  split; [subst e'; destruct in_order; [reflexivity|apply sorted_perm]|].
  split; [subst a'; destruct in_order; [reflexivity|apply sorted_perm]|].
  split; [intros -> Hwf; apply sorted_ordered, Hwf|].
  split; [intros -> Hwf; apply sorted_ordered, Hwf|].
  pose proof (_assert_equals_seq expected actual e a in_order He Ha) as E.
  simpl in E. fold e' a' in E. rewrite Le, La in E.
  split.
  { intros Hne. rewrite E. apply Nat.eqb_neq in Hne. rewrite Hne. reflexivity. }
  split; [|split; reflexivity].
  intros Heq. apply Nat.eqb_eq in Heq. rewrite Heq in E.
  split; [exact E|]. rewrite E. split.
  - rewrite seq_loop_pass. split.
    + intros H i x y Hx Hy. apply (H i). apply in_enumerate.
      apply nth_error_combine. auto.
    + intros H i x y Hin. apply in_enumerate in Hin.
      apply nth_error_combine in Hin. destruct Hin. eapply H; eassumption.
  - intros i x y f Hx Hy Hbefore Hf. unfold enumerate.
    rewrite (seq_loop_first_failure _ _ _ 0 i x y f); auto.
    + apply nth_error_combine. auto.
    + intros j x' y' Hj Hn. apply nth_error_combine in Hn. destruct Hn.
      eapply Hbefore; eassumption.
Qed.

Lemma sequence_comparison_witness :
  as_seq (VList [VInt 2; VInt 1]) = Some [VInt 2; VInt 1] /\
  as_seq (VTuple [VInt 1; VInt 2; VInt 3]) = Some [VInt 1; VInt 2; VInt 3] /\
  _assert_equals (VList [VInt 2; VInt 1]) (VTuple [VInt 1; VInt 2; VInt 3]) false
  = Some (Fail {| f_path := ""; f_leaf := DifferentLengths 2 3 |}).
Proof.
  split; [reflexivity|]. split; [reflexivity|].
  apply (sequence_comparison (VList [VInt 2; VInt 1])
           (VTuple [VInt 1; VInt 2; VInt 3]) _ _ false eq_refl eq_refl).
  simpl. lia.
Defined.

(** ** Failure paths *)






(** ** Multi-line strings *)

Lemma append_nil_r s : String.append s "" = s.
Proof.
  induction s as [|c s IH]; [reflexivity|].
  change (String c (String.append s "") = String c s). rewrite IH. reflexivity.
Qed.

Lemma append_assoc s1 s2 s3 :
  String.append (String.append s1 s2) s3
  = String.append s1 (String.append s2 s3).
Proof.
  induction s1 as [|c s1 IH]; [reflexivity|].
  change (String c (String.append (String.append s1 s2) s3)
          = String c (String.append s1 (String.append s2 s3))).
  rewrite IH. reflexivity.
Qed.

(** The lines of [splitlines] put together give the string back. *)
Lemma join_splitlines_from n :
  forall s cur, String.length s <= n ->
    join (splitlines_from cur s) = String.append cur s.
Proof.
  induction n as [|n IH]; intros s cur Hn.
  - destruct s; [|simpl in Hn; lia]. simpl. rewrite append_nil_r.
    destruct (String.eqb_spec cur "");
      [subst; reflexivity|exact (append_nil_r cur)].
  - destruct s as [|c s].
    { simpl. rewrite append_nil_r.
      destruct (String.eqb_spec cur "");
        [subst; reflexivity|exact (append_nil_r cur)]. }
    simpl in Hn. cbn [splitlines_from].
    destruct (Ascii.eqb c newline).
    { cbn [join fold_right]. fold (join (splitlines_from "" s)).
      rewrite IH by lia. rewrite append_assoc. reflexivity. }
    destruct (Ascii.eqb c carriage_return).
    + destruct s as [|c2 s].
      { cbn [join fold_right]. rewrite append_nil_r. reflexivity. }
      simpl in Hn. destruct (Ascii.eqb c2 newline).
      * cbn [join fold_right]. fold (join (splitlines_from "" s)).
        rewrite IH by lia. rewrite append_assoc. reflexivity.
      * cbn [join fold_right]. fold (join (splitlines_from "" (String c2 s))).
        rewrite IH by (simpl; lia). rewrite append_assoc. reflexivity.
    + rewrite IH by lia. rewrite append_assoc. reflexivity.
Qed.

Lemma join_splitlines s : join (splitlines_keepends s) = s.
Proof.
  unfold splitlines_keepends.
  rewrite (join_splitlines_from (String.length s)); [reflexivity|lia].
Qed.

Lemma lstrip_spec s :
  exists pre,
    s = String.append pre (lstrip s) /\ all_space pre = true /\
    starts_with_space (lstrip s) = false.
Proof.
  induction s as [|c s (pre & Hs & Hpre & Hst)]; [exists ""; auto|].
  simpl. destruct (is_space c) eqn:Ec.
  - exists (String c pre). split; [|split; [simpl; rewrite Ec; exact Hpre|exact Hst]].
    change (String c s = String c (String.append pre (lstrip s))).
    rewrite <- Hs. reflexivity.
  - exists "". auto.
Qed.

Lemma rstrip_spec s :
  exists post,
    s = String.append (rstrip s) post /\ all_space post = true /\
    ends_with_space (rstrip s) = false /\
    (starts_with_space s = false -> starts_with_space (rstrip s) = false).
Proof.
  induction s as [|c s (post & Hs & Hpost & Hend & _)]; [exists ""; auto|].
  simpl. destruct (rstrip s) as [|c' r] eqn:Er.
  - change (s = post) in Hs. subst post.
    destruct (is_space c) eqn:Ec.
    + exists (String c s). repeat split; auto. simpl. rewrite Ec. exact Hpost.
    + exists s. repeat split; auto.
  - exists post. split; [|repeat split; auto].
    change (String c s = String c (String.append (String c' r) post)).
    rewrite <- Hs. reflexivity.
Qed.

(** [strip] removes whitespace, and only whitespace, from both ends. *)
Lemma strip_spec s :
  exists pre post,
    s = String.append pre (String.append (strip s) post) /\
    all_space pre = true /\ all_space post = true /\
    starts_with_space (strip s) = false /\ ends_with_space (strip s) = false.
Proof.
  destruct (lstrip_spec s) as (pre & Hs & Hpre & Hst).
  destruct (rstrip_spec (lstrip s)) as (post & Hr & Hpost & Hend & Hkeep).
  exists pre, post. unfold strip. rewrite <- Hr. repeat split; auto.
Qed.

(** The index filter of [normalize], from the third line on: a blank line
    is dropped when the line before it is blank. *)
Lemma filter_from_third suf :
  forall pre, 2 <= length pre ->
    map snd (List.filter (keep_line (pre ++ suf))
               (combine (seq (length pre) (length suf)) suf))
    = squeeze_from (is_blank (nth (length pre - 1) pre "")) suf.
Proof.
  induction suf as [|l suf IH]; intros pre Hpre; [reflexivity|].
  cbn [length seq combine List.filter squeeze_from].
  assert (Hk : keep_line (pre ++ l :: suf) (length pre, l)
               = negb (is_blank (nth (length pre - 1) pre "") && is_blank l)).
  { unfold keep_line. rewrite app_nth1 by lia.
    destruct (Nat.leb_spec (length pre) 1) as [?|_]; [lia|]. simpl.
    unfold is_blank. destruct (String.eqb_spec l blank_line) as [->|Hl].
    - rewrite !andb_true_r. reflexivity.
    - rewrite !andb_false_r. reflexivity. }
  rewrite Hk.
  specialize (IH (pre ++ [l])).
  rewrite <- app_assoc, length_app in IH. simpl in IH.
  replace (length pre + 1) with (S (length pre)) in IH by lia.
  replace (S (length pre) - 1) with (length pre) in IH by lia.
  rewrite nth_middle in IH.
  destruct (is_blank l) eqn:El.
  - destruct (is_blank (nth (length pre - 1) pre "")); simpl;
      rewrite IH by lia; reflexivity.
  - rewrite andb_false_r. simpl. rewrite IH by lia. reflexivity.
Qed.

(** What the filter of [normalize] keeps: the first line, and the remaining
    lines with their runs of blank lines squeezed. *)
Lemma normalize_lines lines :
  map snd (List.filter (keep_line lines) (enumerate lines))
  = match lines with
    | [] => []
    | l0 :: rest => l0 :: squeeze_from false rest
    end.
Proof.
  destruct lines as [|l0 [|l1 rest]]; try reflexivity.
  unfold enumerate.
  cbn [length seq combine List.filter keep_line Nat.leb orb map snd].
  pose proof (filter_from_third rest [l0; l1]) as H.
  cbn [length app Nat.sub nth] in H. rewrite H by lia.
  cbn [squeeze_from]. destruct (is_blank l1); reflexivity.
Qed.

Lemma normalize_squeezes val :
  leading_blank_run (stripped_lines val) = false ->
  normalize val = squeeze_blank_lines (stripped_lines val).
Proof.
  unfold normalize, squeeze_blank_lines. rewrite normalize_lines.
  destruct (stripped_lines val) as [|l0 rest]; [reflexivity|].
  intros H. cbn [squeeze_from].
  destruct (is_blank l0) eqn:E0; [|reflexivity].
  destruct rest as [|l1 rest]; [reflexivity|].
  simpl in H. rewrite E0 in H. simpl in H.
  cbn [squeeze_from]. rewrite H. reflexivity.
Qed.

(** The squeezed text has no two consecutive blank lines. *)
Lemma squeeze_from_no_run prev lines i l l' :
  nth_error (squeeze_from prev lines) i = Some l ->
  nth_error (squeeze_from prev lines) (S i) = Some l' ->
  is_blank l && is_blank l' = false.
Proof.
  revert prev i. induction lines as [|x lines IH]; intros prev i;
    [destruct i; discriminate|].
  cbn [squeeze_from]. destruct (is_blank x) eqn:Ex.
  - destruct prev; [apply IH|].
    destruct i as [|i]; [|apply IH]. simpl.
    intros H. injection H as <-. rewrite Ex. simpl.
    destruct lines as [|y lines]; [discriminate|]. cbn [squeeze_from].
    destruct (is_blank y) eqn:Ey.
    + clear IH. revert Ey. generalize y. clear y.
      induction lines as [|z lines IHl]; intros y Ey; [discriminate|].
      cbn [squeeze_from]. destruct (is_blank z) eqn:Ez; [apply (IHl z Ez)|].
      simpl. intros H. injection H as <-. exact Ez.
    + simpl. intros H. injection H as <-. exact Ey.
  - destruct i as [|i]; [|apply IH]. simpl.
    intros H. injection H as <-. rewrite Ex. reflexivity.
Qed.

Lemma _assert_equals_multiline expected actual io :
  contains_newline expected = true ->
  _assert_equals (VStr expected) (VStr actual) io
  = Some (if decide (normalize expected = normalize actual) then Pass
          else Fail {| f_path := "";
                       f_leaf := LinesDiffer (normalize expected)
                                             (normalize actual) |}).
Proof.
  intros H. rewrite _assert_equals_unfold. simpl. rewrite H.
  unfold assert_multiline_equals. destruct (decide _); reflexivity.
Qed.

(** C2, as the claim states it, fails: the example of the specification
    does not pass, since a single blank line is not removed. *)
Lemma single_blank_line_kept :
  contains_newline two_lines = true /\
  _assert_equals (VStr two_lines) (VStr two_lines_spaced) false
  = Some (Fail {| f_path := "";
                  f_leaf := LinesDiffer
                    [String.append "line1" lf; String.append "line2" lf]
                    [String.append "line1" lf; lf; String.append "line2" lf] |}).
Proof. split; reflexivity. Qed.

(** C2 (amended).  When expected contains a newline, two strings are compared
    by their normalized lines: each string is split into lines, each line is
    stripped of leading and trailing whitespace and ended by one newline, and,
    in a text that does not begin with two blank lines, every run of two or
    more consecutive blank lines becomes a single blank line.  The comparison
    passes exactly when the two normalized texts are equal.  A single blank
    line is kept: the example of the specification fails, while a text with
    one blank line and the same text with three pass. *)
Theorem multiline_comparison (expected actual : string) (in_order : bool) :
  contains_newline expected = true ->
  _assert_equals (VStr expected) (VStr actual) in_order
  = Some (if decide (normalize expected = normalize actual) then Pass
          else Fail {| f_path := "";
                       f_leaf := LinesDiffer (normalize expected)
                                             (normalize actual) |}) /\
  (forall val,
     join (splitlines_keepends val) = val /\
     stripped_lines val
     = map (fun l => String.append (strip l) lf) (splitlines_keepends val)) /\
  (forall l, exists pre post,
     l = String.append pre (String.append (strip l) post) /\
     all_space pre = true /\ all_space post = true /\
     starts_with_space (strip l) = false /\
     ends_with_space (strip l) = false) /\
  (forall val, leading_blank_run (stripped_lines val) = false ->
     normalize val = squeeze_blank_lines (stripped_lines val)) /\
  (forall lines i l l',
     nth_error (squeeze_blank_lines lines) i = Some l ->
     nth_error (squeeze_blank_lines lines) (S i) = Some l' ->
     is_blank l && is_blank l' = false) /\
  (leading_blank_run (stripped_lines expected) = false ->
   leading_blank_run (stripped_lines actual) = false ->
   (_assert_equals (VStr expected) (VStr actual) in_order = Some Pass <->
    squeeze_blank_lines (stripped_lines expected)
    = squeeze_blank_lines (stripped_lines actual))) /\
  _assert_equals (VStr two_lines) (VStr two_lines_spaced) in_order
  <> Some Pass /\
  _assert_equals (VStr gap_lines) (VStr wide_gap_lines) in_order = Some Pass.
Proof.
  intros H. split; [apply _assert_equals_multiline, H|].
  split; [intros val; split; [apply join_splitlines|reflexivity]|].
  split; [apply strip_spec|].
  split; [apply normalize_squeezes|].
  split; [intros lines; apply squeeze_from_no_run|].
  split.
  { intros He Ha. rewrite _assert_equals_multiline by exact H.
    rewrite <- !normalize_squeezes by assumption.
    destruct (decide _); split; congruence. }
  split; destruct in_order; (reflexivity || discriminate).
Qed.

Lemma multiline_comparison_witness :
  contains_newline gap_lines = true /\
  _assert_equals (VStr gap_lines) (VStr wide_gap_lines) false = Some Pass.
Proof.
  split; [reflexivity|].
  apply (multiline_comparison gap_lines wide_gap_lines false). reflexivity.
Defined.

(** ** Sorting values of any kind *)



Lemma pattern_free_dict_get items k :
  pattern_free (VDict items) = true -> pattern_free (dict_get items k) = true.
Proof.
  simpl. unfold dict_get.
  induction items as [|[k0 v] items IH]; simpl; [reflexivity|].
  intros H. apply andb_true_iff in H. destruct H as [Hv Hrest].
  destruct (String.eqb k0 k); [exact Hv|]. apply IH, Hrest.
Qed.

Lemma pattern_free_child e es x :
  as_seq e = Some es -> pattern_free e = true -> In x es ->
  pattern_free x = true.
Proof.
  intros He Hp Hx.
  destruct e; try discriminate; injection He as ->; simpl in Hp;
    eapply forallb_forall in Hp; eauto.
Qed.






End TestutilFacts.

(* ===================================================================== *)
(** * Further properties of models.py *)
(* ===================================================================== *)

Section MoreModelsFacts.
Import Models.

Lemma contains_insert_other (k k' : string) (v : pyval) (kwargs : kwargs_t) :
  k <> k' -> contains k (<[k' := v]> kwargs) = contains k kwargs.
Proof. intros H. unfold contains. rewrite lookup_insert_ne by congruence. reflexivity. Qed.

Lemma key_kind_full_key (cls : model_class) (parent : option pyval)
    (id : key_id) :
  key_kind (full_key cls parent id) = Some (kind cls).
Proof.
  unfold key_kind, full_key.
  destruct parent as [[| | | |p]|]; try reflexivity.
  rewrite last_snoc. reflexivity.
Qed.

(** X1.  A record stored by [get_or_insert] is found again: a following
    [get_by_key_name] with the same name returns it, and [all] lists it
    under its key. *)
Theorem get_or_insert_then_found (cls : model_class) (key_name : string)
    (defaults kwargs : kwargs_t) (s : datastore) :
  contains "_from_entity" defaults = false ->
  parent_ok cls defaults = true ->
  contains "_from_entity" kwargs = false ->
  parent_ok cls kwargs = true ->
  exists r s1,
    get_or_insert cls key_name defaults s = (Returned r, s1) /\
    get_by_key_name cls key_name kwargs s1 = (Returned (Some r), s1) /\
    all cls s1 !! (shared_parent_key cls ++ [(kind cls, KeyName key_name)])
    = Some r.
Proof.
  intros Hd1 Hd2 Hk1 Hk2.
  set (key := shared_parent_key cls ++ [(kind cls, KeyName key_name)]).
  assert (Hget : forall s1 : datastore,
            get_by_key_name cls key_name kwargs s1
            = (Returned (s1 !! key), s1)).
  { intros s1. unfold get_by_key_name.
    rewrite enforce_parent_inject by auto using parent_ok_cases.
    unfold db_Model_get, full_key. rewrite lookup_insert_eq. reflexivity. }
  assert (Hall : forall (s1 : datastore) r,
            s1 !! key = Some r -> all cls s1 !! key = Some r).
  { intros s1 r Hr. unfold all, db_Query_ancestor.
    apply map_lookup_filter_Some_2; [exact Hr|]. simpl. split.
    - unfold key, key_kind. rewrite last_snoc. reflexivity.
    - apply prefix_app_r. reflexivity. }
  rewrite get_or_insert_enforced by assumption. fold key.
  destruct (s !! key) as [r|] eqn:E.
  - exists r, s. rewrite Hget, E. auto.
  - eexists _, _. split; [reflexivity|]. rewrite Hget, lookup_insert_eq.
    split; [reflexivity|]. apply Hall, lookup_insert_eq.
Qed.

Lemma get_or_insert_then_found_witness :
  contains "_from_entity" ({[ "age" := PyInt 3 ]} : kwargs_t) = false /\
  parent_ok Person ({[ "age" := PyInt 3 ]} : kwargs_t) = true /\
  exists r s1,
    get_or_insert Person "bob" {[ "age" := PyInt 3 ]} ∅ = (Returned r, s1) /\
    get_by_key_name Person "bob" ∅ s1 = (Returned (Some r), s1).
Proof.
  split; [reflexivity|]. split; [reflexivity|].
  destruct (get_or_insert_then_found Person "bob" {[ "age" := PyInt 3 ]} ∅ ∅)
    as (r & s1 & H1 & H2 & _); try reflexivity.
  exists r, s1. auto.
Defined.

(** X2.  Decorating a method twice is the same as decorating it once: the
    keyword arguments the decorator hands on pass its own check. *)
Theorem enforce_parent_idempotent {A R : Type}
    (fn : model_class -> A -> kwargs_t -> M R) (cls : model_class)
    (args : A) (kwargs : kwargs_t) (s : datastore) :
  enforce_parent (enforce_parent fn) cls args kwargs s
  = enforce_parent fn cls args kwargs s.
Proof.
  assert (Hin : enforce_parent fn cls args
                  (<["parent" := PyKey (shared_parent_key cls)]> kwargs)
                = fn cls args
                    (<["parent" := PyKey (shared_parent_key cls)]> kwargs)
                \/ contains "_from_entity" kwargs = true).
  { destruct (contains "_from_entity" kwargs) eqn:Hfe; [auto|left].
    rewrite enforce_parent_inject.
    - rewrite insert_insert_eq. reflexivity.
    - rewrite contains_insert_other by discriminate. exact Hfe.
    - right. apply lookup_insert_eq. }
  destruct (contains "_from_entity" kwargs) eqn:Hfe.
  - rewrite !enforce_parent_bypass by exact Hfe. reflexivity.
  - destruct Hin as [Hin|?]; [|discriminate].
    destruct (kwargs !! "parent") as [p|] eqn:Hp.
    + destruct (decide (p = PyKey (shared_parent_key cls))) as [->|Hne].
      * rewrite !(enforce_parent_inject _ cls args kwargs) by auto.
        rewrite Hin. reflexivity.
      * rewrite !(enforce_parent_mismatch _ cls args kwargs p s) by auto.
        reflexivity.
    + rewrite !(enforce_parent_inject _ cls args kwargs) by auto.
      rewrite Hin. reflexivity.
Qed.

(** X3.  The decorator touches no keyword argument but [parent]: either it
    raises the parent assertion and leaves the datastore alone, or the
    wrapped method runs with arguments that agree with the caller's on every
    other key. *)
Theorem enforce_parent_keeps_other_kwargs {A R : Type}
    (fn : model_class -> A -> kwargs_t -> M R) (cls : model_class)
    (args : A) (kwargs : kwargs_t) (s : datastore) :
  enforce_parent fn cls args kwargs s = (Raised mismatch, s) \/
  exists kwargs' : kwargs_t,
    enforce_parent fn cls args kwargs s = fn cls args kwargs' s /\
    (forall k, k <> "parent" -> kwargs' !! k = kwargs !! k) /\
    (contains "_from_entity" kwargs = false ->
     kwargs' !! "parent" = Some (PyKey (shared_parent_key cls))).
Proof.
  destruct (contains "_from_entity" kwargs) eqn:Hfe.
  - right. exists kwargs. rewrite enforce_parent_bypass by exact Hfe.
    split; [reflexivity|]. split; [reflexivity|discriminate].
  - destruct (kwargs !! "parent") as [p|] eqn:Hp.
    + destruct (decide (p = PyKey (shared_parent_key cls))) as [->|Hne].
      * right. eexists. rewrite enforce_parent_inject by auto.
        split; [reflexivity|]. split.
        -- intros k Hk. apply lookup_insert_ne. congruence.
        -- intros _. apply lookup_insert_eq.
      * left. eapply enforce_parent_mismatch; eauto.
    + right. eexists. rewrite enforce_parent_inject by auto.
      split; [reflexivity|]. split.
      * intros k Hk. apply lookup_insert_ne. congruence.
      * intros _. apply lookup_insert_eq.
Qed.

(** X4.  [KeyNameModel.__init__] returns an instance only when it has a
    non-empty key name, and then it is the instance the base constructor
    built; an instance without a key fails with the message
    ['key name required but not provided'], one with a numeric id or an
    empty name with a bare assertion failure. *)
Theorem KeyNameModel_requires_name
    (super_init : model_class -> unit -> kwargs_t -> M Instance)
    (cls : model_class) (kwargs : kwargs_t) (s s' : datastore)
    (self : Instance) :
  super_init cls tt kwargs s = (Returned self, s') ->
  (forall name, i_id self = Some (KeyName name) -> name <> "" ->
     KeyNameModel_init super_init cls tt kwargs s = (Returned self, s')) /\
  (i_id self = None ->
     KeyNameModel_init super_init cls tt kwargs s
     = (Raised (AssertionError "key name required but not provided"), s')) /\
  (forall id, i_id self = Some (KeyId id) ->
     KeyNameModel_init super_init cls tt kwargs s
     = (Raised (AssertionError ""), s')) /\
  (i_id self = Some (KeyName "") ->
     KeyNameModel_init super_init cls tt kwargs s
     = (Raised (AssertionError ""), s')) /\
  (forall inst s2,
     KeyNameModel_init super_init cls tt kwargs s = (Returned inst, s2) ->
     inst = self /\ exists name, i_id inst = Some (KeyName name) /\ name <> "").
Proof.
  intros Hs.
  assert (E : KeyNameModel_init super_init cls tt kwargs s
              = match i_id self with
                | Some id =>
                    if name_given id then (Returned self, s')
                    else (Raised (AssertionError ""), s')
                | None =>
                    (Raised (AssertionError
                               "key name required but not provided"), s')
                end).
  { unfold KeyNameModel_init, bind. rewrite Hs.
    destruct (i_id self) as [id|]; [|reflexivity].
    unfold assert_. destruct (name_given id); reflexivity. }
  rewrite E. clear E.
  assert (N : forall name, name <> "" -> name_given (KeyName name) = true).
  { intros name Hne. unfold name_given. simpl.
    destruct (String.eqb_spec name ""); [congruence|reflexivity]. }
  split; [intros name -> Hne; rewrite N by exact Hne; reflexivity|].
  split; [intros ->; reflexivity|].
  split; [intros id ->; reflexivity|].
  split; [intros ->; reflexivity|].
  intros inst s2 H.
  destruct (i_id self) as [[name|id]|] eqn:Hid; try discriminate.
  unfold name_given in H. simpl in H.
  destruct (String.eqb_spec name ""); simpl in H; [discriminate|].
  injection H as <- <-. split; [reflexivity|]. exists name. auto.
Qed.

Lemma KeyNameModel_requires_name_witness :
  db_Model_init Person tt ∅ ∅
  = (Returned {| i_kind := "Person"; i_id := None; i_parent := None;
                 i_props := ∅ |}, ∅) /\
  KeyNameModel_init db_Model_init Person tt ∅ ∅
  = (Raised (AssertionError "key name required but not provided"), ∅).
Proof.
  split; [reflexivity|].
  apply (KeyNameModel_requires_name db_Model_init Person ∅ ∅ ∅
           {| i_kind := "Person"; i_id := None; i_parent := None;
              i_props := ∅ |}); reflexivity.
Defined.

(** X5.  Records of one kind never show up in, or disturb, the listing of
    another kind: whatever its arguments, a [get_or_insert] for one class
    leaves [all] of a class of a different kind unchanged. *)
Theorem all_ignores_other_kinds (cls1 cls2 : model_class)
    (key_name : string) (kwargs : kwargs_t) (s : datastore) :
  kind cls1 <> kind cls2 ->
  all cls2 (snd (get_or_insert cls1 key_name kwargs s)) = all cls2 s.
Proof.
  intros Hkind.
  assert (Hins : forall (kw : kwargs_t),
            all cls2 (snd (db_Model_get_or_insert cls1 key_name kw s))
            = all cls2 s).
  { intros kw. unfold db_Model_get_or_insert.
    destruct (s !! _); [reflexivity|]. simpl.
    unfold all, db_Query_ancestor. apply map_filter_insert_not.
    intros y [Hk _]. simpl in Hk. rewrite key_kind_full_key in Hk.
    congruence. }
  destruct (enforce_parent_keeps_other_kwargs db_Model_get_or_insert cls1
              key_name kwargs s) as [H|(kw & H & _)];
    unfold get_or_insert; rewrite H; [reflexivity|apply Hins].
Qed.

Lemma all_ignores_other_kinds_witness :
  kind Person <> kind {| kind := "Pet" |} /\
  all {| kind := "Pet" |} (snd (get_or_insert Person "bob" ∅ ∅))
  = all {| kind := "Pet" |} ∅.
Proof.
  split; [discriminate|].
  apply (all_ignores_other_kinds Person {| kind := "Pet" |} "bob" ∅ ∅).
  discriminate.
Defined.

End MoreModelsFacts.

(* ===================================================================== *)
(** * Further properties of testutil.py *)
(* ===================================================================== *)

Section MoreTestutilFacts.
Import Testutil.

Lemma in_enumerate_same (i : nat) (x y : value) l :
  In (i, (x, y)) (enumerate (combine l l)) -> x = y /\ In x l.
Proof.
  intros H. apply in_enumerate, nth_error_combine in H.
  destruct H as [Hx Hy]. split; [congruence|].
  eapply nth_error_In, Hx.
Qed.

Lemma reflexive_upto io n :
  forall v, depth v < n -> pattern_free v = true ->
    _assert_equals v v io = Some Pass.
Proof.
  induction n as [|n IH]; intros v Hd Hp; [lia|].
  destruct v as [|m|s|addr re|xs|xs|items]; try discriminate.
  - rewrite _assert_equals_unfold. reflexivity.
  - rewrite _assert_equals_unfold. simpl. unfold assertEquals. simpl.
    rewrite Z.eqb_refl. reflexivity.
  - rewrite _assert_equals_unfold. simpl.
    unfold assertEquals, assert_multiline_equals. simpl.
    rewrite String.eqb_refl.
    destruct (contains_newline s); [|reflexivity].
    destruct (decide _); [reflexivity|congruence].
  - rewrite (_assert_equals_seq (VList xs) (VList xs) xs xs io eq_refl eq_refl).
    simpl. rewrite Nat.eqb_refl. apply seq_loop_pass.
    intros i x y Hin. apply in_enumerate_same in Hin. destruct Hin as [<- Hin].
    assert (Hx : In x xs) by (destruct io; auto using sorted_In).
    apply IH.
    + pose proof (depth_child_seq (VList xs) xs x eq_refl Hx). lia.
    + exact (pattern_free_child (VList xs) xs x eq_refl Hp Hx).
  - rewrite (_assert_equals_seq (VTuple xs) (VTuple xs) xs xs io
               eq_refl eq_refl).
    simpl. rewrite Nat.eqb_refl. apply seq_loop_pass.
    intros i x y Hin. apply in_enumerate_same in Hin. destruct Hin as [<- Hin].
    assert (Hx : In x xs) by (destruct io; auto using sorted_In).
    apply IH.
    + pose proof (depth_child_seq (VTuple xs) xs x eq_refl Hx). lia.
    + exact (pattern_free_child (VTuple xs) xs x eq_refl Hp Hx).
  - rewrite _assert_equals_dict. apply dict_loop_pass. intros k _.
    apply IH.
    + pose proof (depth_child_dict (VDict items) items k eq_refl). lia.
    + apply pattern_free_dict_get, Hp.
Qed.



(** X7.  Lists and tuples are interchangeable: the verdict on two sequences
    depends on their elements only, not on which of them is a list and which
    a tuple; so a list passes against the tuple of the same elements, which
    Python's [==] tells apart. *)
Theorem list_or_tuple_indifferent (e e' a a' : value) (xs ys : list value)
    (in_order : bool) :
  as_seq e = Some xs -> as_seq e' = Some xs ->
  as_seq a = Some ys -> as_seq a' = Some ys ->
  _assert_equals e a in_order = _assert_equals e' a' in_order /\
  (forallb pattern_free xs = true ->
   _assert_equals (VList xs) (VTuple xs) in_order = Some Pass /\
   py_eq (VList xs) (VTuple xs) = false).
Proof.
  intros He He' Ha Ha'. split.
  - rewrite (_assert_equals_seq e a xs ys in_order He Ha).
    rewrite (_assert_equals_seq e' a' xs ys in_order He' Ha'). reflexivity.
  - intros Hp. split; [|reflexivity].
    rewrite (_assert_equals_seq (VList xs) (VTuple xs) xs xs in_order
               eq_refl eq_refl).
    rewrite <- (_assert_equals_seq (VList xs) (VList xs) xs xs in_order
                  eq_refl eq_refl).
    eapply reflexive_upto; [apply Nat.lt_succ_diag_r|exact Hp].
Qed.

Lemma list_or_tuple_indifferent_witness :
  as_seq (VList [VInt 1; VInt 2]) = Some [VInt 1; VInt 2] /\
  as_seq (VTuple [VInt 1; VInt 2]) = Some [VInt 1; VInt 2] /\
  _assert_equals (VList [VInt 1; VInt 2]) (VList [VInt 1; VInt 2]) true
  = _assert_equals (VTuple [VInt 1; VInt 2]) (VList [VInt 1; VInt 2]) true.
Proof.
  split; [reflexivity|]. split; [reflexivity|].
  apply (list_or_tuple_indifferent (VList [VInt 1; VInt 2])
           (VTuple [VInt 1; VInt 2]) (VList [VInt 1; VInt 2])
           (VList [VInt 1; VInt 2]) [VInt 1; VInt 2] [VInt 1; VInt 2] true);
    reflexivity.
Defined.

Lemma dict_lookup_perm k items items' :
  List.NoDup (dict_keys items) -> Permutation items items' ->
  dict_lookup k items' = dict_lookup k items.
Proof.
  intros Hnd Hperm.
  assert (Hnd' : List.NoDup (dict_keys items'))
    by (eapply Permutation_NoDup; [apply Permutation_map, Hperm|exact Hnd]).
  destruct (dict_lookup k items) as [v|] eqn:E.
  - apply dict_lookup_distinct; [exact Hnd'|].
    eapply Permutation_in; [exact Hperm|]. apply dict_lookup_Some_In, E.
  - destruct (dict_lookup k items') as [v|] eqn:E'; [|reflexivity].
    apply dict_lookup_Some_In in E'.
    apply (Permutation_in _ (Permutation_sym Hperm)) in E'.
    rewrite (dict_lookup_distinct k v items Hnd E') in E. discriminate.
Qed.

(** X8.  Whether two dicts compare equal does not depend on the order in
    which their items are visited: rearranging the items of either dict
    (each key occurring once) changes neither a pass into a failure nor a
    failure into a pass. *)
Theorem dict_order_irrelevant (e e' a a' : list (string * value))
    (in_order : bool) :
  List.NoDup (dict_keys e) -> List.NoDup (dict_keys a) ->
  Permutation e e' -> Permutation a a' ->
  (_assert_equals (VDict e) (VDict a) in_order = Some Pass <->
   _assert_equals (VDict e') (VDict a') in_order = Some Pass).
Proof.
  intros He Ha Pe Pa. rewrite !_assert_equals_dict, !dict_loop_pass.
  assert (G : forall k, dict_get e' k = dict_get e k /\
                        dict_get a' k = dict_get a k).
  { intros k. unfold dict_get.
    rewrite (dict_lookup_perm k e e' He Pe), (dict_lookup_perm k a a' Ha Pa).
    auto. }
  assert (U : forall k, In k (union_keys e a) <-> In k (union_keys e' a')).
  { intros k. rewrite !in_union_keys. unfold dict_keys.
    split; intros [H|H];
      ((left; eapply Permutation_in; [|exact H]; apply Permutation_map;
        (exact Pe || exact (Permutation_sym Pe)))
       || (right; eapply Permutation_in; [|exact H]; apply Permutation_map;
           (exact Pa || exact (Permutation_sym Pa)))). }
  split; intros H k Hk; destruct (G k) as [G1 G2].
  - rewrite G1, G2. apply H, U, Hk.
  - rewrite <- G1, <- G2. apply H, U, Hk.
Qed.

Lemma dict_order_irrelevant_witness :
  _assert_equals (VDict [("a", VInt 1); ("b", VInt 2)])
                 (VDict [("a", VInt 1); ("b", VInt 2)]) true = Some Pass <->
  _assert_equals (VDict [("b", VInt 2); ("a", VInt 1)])
                 (VDict [("a", VInt 1); ("b", VInt 2)]) true = Some Pass.
Proof.
  apply (dict_order_irrelevant [("a", VInt 1); ("b", VInt 2)]
           [("b", VInt 2); ("a", VInt 1)] [("a", VInt 1); ("b", VInt 2)]
           [("a", VInt 1); ("b", VInt 2)] true).
  - apply distinct_NoDup. reflexivity.
  - apply distinct_NoDup. reflexivity.
  - apply perm_swap.
  - reflexivity.
Defined.

Lemma dict_loop_any_order r keys e a :
  (forall k, In k keys ->
     r (dict_get e k) (dict_get a k) true = r (dict_get e k) (dict_get a k) false) ->
  dict_loop r true keys e a = dict_loop r false keys e a.
Proof.
  induction keys as [|k keys IH]; intros H; simpl; [reflexivity|].
  rewrite <- (H k) by (left; reflexivity).
  destruct (r _ _ true) as [[| |]|]; try reflexivity.
  apply IH. intros; apply H; right; assumption.
Qed.

Lemma seq_free_dict_get items k :
  seq_free (VDict items) = true -> seq_free (dict_get items k) = true.
Proof.
  simpl. unfold dict_get.
  induction items as [|[k0 v] items IH]; simpl; [reflexivity|].
  intros H. apply andb_true_iff in H. destruct H as [Hv Hrest].
  destruct (String.eqb k0 k); [exact Hv|]. apply IH, Hrest.
Qed.

Lemma seq_free_any_order n :
  forall e a, depth e < n -> seq_free e = true ->
    _assert_equals e a true = _assert_equals e a false.
Proof.
  induction n as [|n IH]; intros e a Hd Hs; [lia|].
  rewrite !_assert_equals_unfold.
  destruct e as [|m|s|addr re|xs|xs|items]; try discriminate;
    try reflexivity.
  destruct a; try reflexivity. simpl.
  apply dict_loop_any_order. intros k _. apply IH.
  - pose proof (depth_child_dict (VDict items) items k eq_refl). lia.
  - apply seq_free_dict_get, Hs.
Qed.

(** X9.  [in_order] matters for sequences only: when expected contains no
    list or tuple, however deeply nested in dicts, the verdict is the same
    with and without it, whatever actual is. *)
Theorem in_order_only_for_sequences (expected actual : value) :
  seq_free expected = true ->
  _assert_equals expected actual true = _assert_equals expected actual false.
Proof.
  intros H. eapply seq_free_any_order; [apply Nat.lt_succ_diag_r|exact H].
Qed.

Lemma in_order_only_for_sequences_witness :
  seq_free (VDict [("a", VInt 1)]) = true /\
  _assert_equals (VDict [("a", VInt 1)]) (VDict [("a", VList [VInt 1])]) true
  = _assert_equals (VDict [("a", VInt 1)]) (VDict [("a", VList [VInt 1])]) false.
Proof.
  split; [reflexivity|].
  apply (in_order_only_for_sequences (VDict [("a", VInt 1)])
           (VDict [("a", VList [VInt 1])])).
  reflexivity.
Defined.

Lemma compare_ints x y io :
  _assert_equals (VInt x) (VInt y) io = Some Pass <-> x = y.
Proof.
  rewrite _assert_equals_unfold. simpl. unfold assertEquals. simpl.
  destruct (Z.eqb_spec x y); simpl; split; intros H;
    try assumption; try reflexivity; try discriminate; congruence.
Qed.

Lemma ints_pairwise io zs :
  forall ws, length zs = length ws ->
    ((forall i x y, nth_error (map VInt zs) i = Some x ->
        nth_error (map VInt ws) i = Some y ->
        _assert_equals x y io = Some Pass) <-> zs = ws).
Proof.
  induction zs as [|z zs IH]; intros [|w ws] Hlen; try discriminate.
  - split; [reflexivity|]. intros _ [|i] x y H; discriminate H.
  - simpl in Hlen. injection Hlen as Hlen. split.
    + intros H. f_equal.
      * apply (compare_ints z w io). apply (H 0); reflexivity.
      * apply (IH ws Hlen). intros i x y Hx Hy. apply (H (S i)); assumption.
    + intros E. injection E as -> ->. intros [|i] x y Hx Hy.
      * simpl in Hx, Hy. injection Hx as <-. injection Hy as <-.
        apply compare_ints. reflexivity.
      * simpl in Hx, Hy. apply (proj2 (IH ws Hlen) eq_refl i); assumption.
Qed.

Lemma well_formed_ints zs : forallb well_formed (map VInt zs) = true.
Proof. induction zs; simpl; auto. Qed.

Lemma ints_ordered zs :
  Sorted (fun u v => py_lt v u = false) (map VInt zs) -> Sorted Z.le zs.
Proof.
  induction zs as [|z zs IH]; intros H; [constructor|].
  simpl in H. inversion H as [|? ? Hs Hhd]. subst.
  constructor; [apply IH, Hs|].
  destruct zs as [|w zs]; constructor.
  inversion Hhd as [|? ? Hlt]. subst.
  unfold py_lt in Hlt. simpl in Hlt.
  destruct (Z.compare_spec w z); try discriminate; lia.
Qed.

(** Sorting a list of integers gives its ascending rearrangement. *)
Lemma sorted_ints xs :
  exists zs, sorted (map VInt xs) = map VInt zs /\ Permutation xs zs /\
             StronglySorted Z.le zs.
Proof.
  destruct (Permutation_map_inv VInt xs
              (Permutation_sym (sorted_perm (map VInt xs))))
    as (zs & Hz & Hp).
  exists zs. split; [exact Hz|]. split; [exact Hp|].
  apply Sorted_StronglySorted; [intros x y z; apply Z.le_trans|].
  apply ints_ordered. rewrite <- Hz. apply sorted_ordered, well_formed_ints.
Qed.

Lemma ascending_unique (l1 : list Z) :
  forall l2, StronglySorted Z.le l1 -> StronglySorted Z.le l2 ->
    Permutation l1 l2 -> l1 = l2.
Proof.
  induction l1 as [|x l1 IH]; intros l2 H1 H2 P.
  - apply Permutation_nil in P. auto.
  - destruct l2 as [|y l2];
      [apply Permutation_sym, Permutation_nil in P; discriminate|].
    apply StronglySorted_inv in H1, H2.
    destruct H1 as [S1 F1], H2 as [S2 F2].
    rewrite List.Forall_forall in F1, F2.
    assert (x = y).
    { assert (Hx : In x (y :: l2))
        by (eapply Permutation_in; [exact P|left; reflexivity]).
      assert (Hy : In y (x :: l1))
        by (eapply Permutation_in;
            [exact (Permutation_sym P)|left; reflexivity]).
      destruct Hx as [?|Hx]; [congruence|].
      destruct Hy as [?|Hy]; [congruence|].
      specialize (F1 y Hy). specialize (F2 x Hx). lia. }
    subst y. f_equal. apply IH; auto.
    eapply Permutation_cons_inv, P.
Qed.

Lemma map_VInt_inj xs ys : map VInt xs = map VInt ys -> xs = ys.
Proof.
  revert ys. induction xs as [|x xs IH]; intros [|y ys] H; try discriminate;
    [reflexivity|].
  simpl in H. injection H as -> H. f_equal. auto.
Qed.

(** X10.  On lists of integers the comparison is exact: out of order, two
    lists pass if and only if one is a rearrangement of the other; in order,
    if and only if they are the same list. *)
Theorem int_lists_compare (xs ys : list Z) :
  (_assert_equals (VList (map VInt xs)) (VList (map VInt ys)) false
   = Some Pass <-> Permutation xs ys) /\
  (_assert_equals (VList (map VInt xs)) (VList (map VInt ys)) true
   = Some Pass <-> xs = ys).
Proof.
  assert (G : forall io (zs ws : list Z),
            length zs = length ws ->
            (seq_loop _assert_equals io
               (enumerate (combine (map VInt zs) (map VInt ws))) = Some Pass
             <-> zs = ws)).
  { intros io zs ws Hlen. rewrite seq_loop_pass.
    rewrite <- (ints_pairwise io zs ws Hlen). split.
    - intros H i x y Hx Hy. apply (H i). apply in_enumerate.
      apply nth_error_combine. auto.
    - intros H i x y Hin. apply in_enumerate, nth_error_combine in Hin.
      destruct Hin. eapply H; eassumption. }
  split.
  - rewrite (_assert_equals_seq (VList (map VInt xs)) (VList (map VInt ys))
               (map VInt xs) (map VInt ys) false eq_refl eq_refl). simpl.
    destruct (sorted_ints xs) as (zs & Ez & Pz & Sz).
    destruct (sorted_ints ys) as (ws & Ew & Pw & Sw).
    rewrite Ez, Ew, !length_map.
    destruct (Nat.eqb_spec (length zs) (length ws)) as [Hlen|Hlen].
    + rewrite (G false zs ws Hlen). split.
      * intros ->. eapply Permutation_trans; [exact Pz|].
        apply Permutation_sym, Pw.
      * intros P. apply ascending_unique; auto.
        eapply Permutation_trans; [apply Permutation_sym, Pz|].
        eapply Permutation_trans; [exact P|exact Pw].
    + split; [discriminate|]. intros P. exfalso. apply Hlen.
      rewrite <- (Permutation_length Pz), <- (Permutation_length Pw).
      apply Permutation_length, P.
  - rewrite (_assert_equals_seq (VList (map VInt xs)) (VList (map VInt ys))
               (map VInt xs) (map VInt ys) true eq_refl eq_refl). simpl.
    rewrite !length_map.
    destruct (Nat.eqb_spec (length xs) (length ys)) as [Hlen|Hlen].
    + apply G, Hlen.
    + split; [discriminate|]. intros ->. congruence.
Qed.

(** ** Expected requests *)

Lemma matches_escape u p : matches (re_escape u) p <-> p = u.
Proof.
  revert p. induction u as [|c u IH]; intros p; simpl.
  - split; [intros H; inversion H; reflexivity|intros ->; constructor].
  - split.
    + intros H. apply cat_inv in H. destruct H as (s1 & s2 & -> & H1 & H2).
      inversion H1; subst. apply IH in H2. subst. reflexivity.
    + intros ->. apply (M_cat (ReChar c) (re_escape u) (String c "") u).
      * constructor.
      * apply IH. reflexivity.
Qed.

(** [re_search] accepts the strings with a part in the language. *)
Lemma re_search_spec re s :
  re_search re s = true <->
  exists pre p post,
    s = String.append pre (String.append p post) /\ matches re p.
Proof.
  induction s as [|c s IH]; cbn [re_search].
  - rewrite orb_false_r, re_match_prefix. split.
    + intros (p & rest & Hs & Hp). exists "", p, rest.
      split; [exact Hs|apply fullmatch_spec, Hp].
    + intros (pre & p & post & Hs & Hp).
      destruct pre; [|discriminate]. exists p, post.
      split; [exact Hs|apply fullmatch_spec, Hp].
  - rewrite orb_true_iff, re_match_prefix, IH. split.
    + intros [(p & rest & Hs & Hp)|(pre & p & post & -> & Hp)].
      * exists "", p, rest. split; [exact Hs|apply fullmatch_spec, Hp].
      * exists (String c pre), p, post. auto.
    + intros (pre & p & post & Hs & Hp). destruct pre as [|c' pre].
      * left. exists p, post. split; [exact Hs|apply fullmatch_spec, Hp].
      * right. change (String c s
                       = String c' (String.append pre (String.append p post)))
          in Hs.
        injection Hs as <- ->. eauto.
Qed.

Lemma has_header_In items h : has_header items h = true <-> In h items.
Proof.
  unfold has_header. rewrite existsb_exists. destruct h as [k v]. split.
  - intros ([k' v'] & Hin & Heq). simpl in Heq.
    apply andb_true_iff in Heq. destruct Heq as [Hk Hv].
    apply String.eqb_eq in Hk, Hv. subst. exact Hin.
  - intros Hin. exists (k, v). simpl. rewrite !String.eqb_refl. auto.
Qed.

(** X11.  An expected URL given as a string is looked for inside the
    requested URL: the check accepts every request whose URL contains it, not
    only the equal one.  A plain URL request is accepted only when no data
    and no headers are expected; a Request is accepted when its data equals
    the expected data and its headers include every expected header (more
    request headers do no harm). *)
Theorem check_request_accepts (u : string) (data : option string)
    (headers : headers_arg) :
  (forall url,
     check_request (UrlString u) data headers (ReqString url) = true <->
     (exists pre post, url = String.append pre (String.append u post)) /\
     no_data data = true /\ no_headers headers = true) /\
  (forall r items,
     check_request (UrlString u) data (HeadersDict items) (ReqObject r) = true
     <->
     (exists pre post,
        get_full_url r = String.append pre (String.append u post)) /\
     data = get_data r /\ incl items (header_items r)) /\
  (forall r r' items,
     check_request (UrlString u) data (HeadersDict items) (ReqObject r) = true ->
     get_full_url r' = get_full_url r -> get_data r' = get_data r ->
     incl (header_items r) (header_items r') ->
     check_request (UrlString u) data (HeadersDict items) (ReqObject r') = true).
Proof.
  assert (U : forall url,
            re_search (re_escape u) url = true <->
            exists pre post, url = String.append pre (String.append u post)).
  { intros url. rewrite re_search_spec. split.
    - intros (pre & p & post & Hs & Hp). apply matches_escape in Hp. subst p.
      eauto.
    - intros (pre & post & Hs). exists pre, u, post.
      split; [exact Hs|apply matches_escape; reflexivity]. }
  assert (D : forall d d', same_data d d' = true <-> d = d').
  { intros [d|] [d'|]; simpl; split; intros H; try discriminate; auto.
    - apply String.eqb_eq in H. congruence.
    - injection H as ->. apply String.eqb_refl. }
  assert (R : forall r items,
     check_request (UrlString u) data (HeadersDict items) (ReqObject r) = true
     <->
     (exists pre post,
        get_full_url r = String.append pre (String.append u post)) /\
     data = get_data r /\ incl items (header_items r)).
  { intros r items. unfold check_request.
    rewrite !andb_true_iff, U, D, forallb_forall. unfold incl. split.
    - intros [[HA HB] HC]. split; [exact HA|]. split; [exact HB|].
      intros h Hh. apply has_header_In, HC, Hh.
    - intros (HA & HB & HC). split; [split; assumption|].
      intros h Hh. apply has_header_In, HC, Hh. }
  split.
  { intros url. unfold check_request. rewrite !andb_true_iff, U. tauto. }
  split; [exact R|].
  intros r r' items H Hu Hd Hincl. apply R. apply R in H.
  destruct H as (H1 & H2 & H3). rewrite Hu, Hd.
  split; [exact H1|]. split; [exact H2|].
  intros h Hh. apply Hincl, H3, Hh.
Qed.

(** X12.  The expected call returns a response exactly for the statuses 200
    to 299, and then the result gives back the status and the response it
    was set up with; for every other status it raises an HTTPError carrying
    that status, also when no response was given. *)
Theorem expect_urlopen_by_status (response : option string) (status : Z)
    (response_headers : list (string * string)) :
  (200 <= status <= 299 ->
   forall r, response = Some r ->
     exists res,
       expect_urlopen response status response_headers = AndReturn res /\
       getcode res = status /\ read res = r /\
       result_headers res = response_headers)%Z /\
  (200 <= status <= 299 -> response = None ->
   expect_urlopen response status response_headers = ReturnsCall)%Z /\
  (status < 200 \/ 299 < status ->
   exists fp,
     expect_urlopen response status response_headers
     = AndRaise status response_headers fp)%Z.
Proof.
  unfold expect_urlopen.
  assert (H : (Z.eqb (status / 100) 2 = true <-> 200 <= status <= 299)%Z).
  { rewrite Z.eqb_eq. split; intros H.
    - pose proof (Z.div_mod status 100 ltac:(lia)).
      pose proof (Z.mod_pos_bound status 100 ltac:(lia)). lia.
    - symmetry. apply (Z.div_unique status 100 2 (status - 200)); lia. }
  split; [|split].
  - intros Hs r ->. apply H in Hs. rewrite Hs. simpl. eauto.
  - intros Hs ->. apply H in Hs. rewrite Hs. reflexivity.
  - intros Hs. destruct (Z.eqb (status / 100) 2).
    + destruct H as [H _]. specialize (H eq_refl). lia.
    + simpl. eauto.
Qed.

Lemma expect_urlopen_by_status_witness :
  (200 <= 204 <= 299)%Z /\
  exists res,
    expect_urlopen (Some "") 204 [] = AndReturn res /\
    getcode res = 204%Z /\ read res = "" /\ result_headers res = [].
Proof.
  split; [lia|].
  apply (expect_urlopen_by_status (Some "") 204 []); [lia|reflexivity].
Defined.

(** ** A final newline *)

Lemma rstrip_newline x : rstrip (String.append x lf) = rstrip x.
Proof.
  induction x as [|c x IH]; [reflexivity|].
  change (String.append (String c x) lf) with (String c (String.append x lf)).
  cbn [rstrip]. rewrite IH. reflexivity.
Qed.

Lemma lstrip_all_space x : all_space x = true -> lstrip x = "".
Proof.
  induction x as [|c x IH]; simpl; [reflexivity|].
  intros H. apply andb_true_iff in H. destruct H as [-> H]. auto.
Qed.

Lemma lstrip_newline x :
  lstrip (String.append x lf)
  = if all_space x then "" else String.append (lstrip x) lf.
Proof.
  induction x as [|c x IH]; [reflexivity|].
  change (String.append (String c x) lf) with (String c (String.append x lf)).
  cbn [lstrip all_space]. destruct (is_space c); [exact IH|reflexivity].
Qed.

Lemma strip_newline x : strip (String.append x lf) = strip x.
Proof.
  unfold strip. rewrite lstrip_newline. destruct (all_space x) eqn:E.
  - rewrite (lstrip_all_space x E). reflexivity.
  - apply rstrip_newline.
Qed.

Lemma ends_with_break_cons c s :
  s <> "" -> ends_with_break (String c s) = ends_with_break s.
Proof. destruct s; [congruence|reflexivity]. Qed.

Lemma stripped_lone_newline cur :
  cur <> "" ->
  map (fun l => String.append (strip l) blank_line)
      (splitlines_from cur (String.append "" lf))
  = map (fun l => String.append (strip l) blank_line)
        (splitlines_from cur "").
Proof.
  intros Hcur. pose proof (strip_newline cur) as E. unfold lf in E.
  change (String.append "" lf) with (String newline "").
  cbn [splitlines_from]. rewrite Ascii.eqb_refl.
  destruct (String.eqb_spec cur ""); [contradiction|].
  cbn [map]. rewrite E. reflexivity.
Qed.

Lemma stripped_final_newline n :
  forall s cur, String.length s <= n ->
    (s = "" -> cur <> "") -> ends_with_break s = false ->
    map (fun l => String.append (strip l) blank_line)
        (splitlines_from cur (String.append s lf))
    = map (fun l => String.append (strip l) blank_line)
          (splitlines_from cur s).
Proof.
  induction n as [|n IH]; intros s cur Hn Hcur Hend.
  - destruct s; [|simpl in Hn; lia]. apply stripped_lone_newline; auto.
  - destruct s as [|c s]; [apply stripped_lone_newline; auto|].
    simpl in Hn.
    change (String.append (String c s) lf) with (String c (String.append s lf)).
    cbn [splitlines_from].
    destruct (Ascii.eqb c newline) eqn:Enl.
    { destruct s as [|c2 s]; [simpl in Hend; rewrite Enl in Hend; discriminate|].
      cbn [map]. f_equal. apply IH; [lia|discriminate|].
      rewrite ends_with_break_cons in Hend by discriminate. exact Hend. }
    destruct (Ascii.eqb c carriage_return) eqn:Ecr.
    + destruct s as [|c2 s];
        [simpl in Hend; rewrite Ecr, orb_true_r in Hend; discriminate|].
      rewrite ends_with_break_cons in Hend by discriminate.
      change (String.append (String c2 s) lf)
        with (String c2 (String.append s lf)).
      cbv iota. simpl in Hn. destruct (Ascii.eqb c2 newline) eqn:Enl2.
      * destruct s as [|c3 s];
          [simpl in Hend; rewrite Enl2 in Hend; discriminate|].
        cbn [map]. f_equal. apply IH; [cbn [String.length] in Hn |- *; lia|discriminate|].
        rewrite ends_with_break_cons in Hend by discriminate. exact Hend.
      * cbn [map]. f_equal.
        change (String c2 (String.append s lf))
          with (String.append (String c2 s) lf).
        apply IH; [cbn [String.length] in Hn |- *; lia|discriminate|exact Hend].
    + apply IH; [lia| |].
      * intros _. destruct cur; discriminate.
      * destruct s as [|c2 s]; [reflexivity|].
        rewrite ends_with_break_cons in Hend by discriminate. exact Hend.
Qed.

(** X13.  A newline added at the end of a text is ignored: for a non-empty
    text that does not end with a line break, the normalized lines with and
    without a final newline are the same, so the multi-line comparison
    gives the same verdict for both. *)
Theorem final_newline_ignored (expected actual : string) (in_order : bool) :
  actual <> "" -> ends_with_break actual = false ->
  normalize (String.append actual lf) = normalize actual /\
  (contains_newline expected = true ->
   _assert_equals (VStr expected) (VStr (String.append actual lf)) in_order
   = _assert_equals (VStr expected) (VStr actual) in_order).
Proof.
  intros Hne Hend.
  assert (E : stripped_lines (String.append actual lf) = stripped_lines actual).
  { unfold stripped_lines, splitlines_keepends.
    apply (stripped_final_newline (String.length actual)); auto. }
  assert (N : normalize (String.append actual lf) = normalize actual)
    by (unfold normalize; rewrite E; reflexivity).
  split; [exact N|]. intros Hnl.
  rewrite !_assert_equals_multiline by exact Hnl. rewrite N. reflexivity.
Qed.

Lemma final_newline_ignored_witness :
  two_lines <> "" /\ ends_with_break two_lines = false /\
  normalize (String.append two_lines lf) = normalize two_lines.
Proof.
  split; [discriminate|]. split; [reflexivity|].
  apply (final_newline_ignored two_lines two_lines true);
    [discriminate|reflexivity].
Defined.

(** ** Entities *)

Lemma view_eq ignore keys_only x x' :
  view ignore keys_only x = view ignore keys_only x' ->
  ent_key x = ent_key x' /\
  (if keys_only then [] else props ignore x)
  = (if keys_only then [] else props ignore x').
Proof. unfold view. intros H. injection H as H1 H2. auto. Qed.

Lemma map_view_cons ignore keys_only x l x' l' :
  map (view ignore keys_only) (x :: l) = map (view ignore keys_only) (x' :: l') ->
  view ignore keys_only x = view ignore keys_only x' /\
  map (view ignore keys_only) l = map (view ignore keys_only) l'.
Proof.
  cbn [map]. generalize (view ignore keys_only x), (view ignore keys_only x').
  intros v v' H. injection H as H1 H2. auto.
Qed.

Lemma insert_by_key_view ignore keys_only x x' l :
  forall l',
    view ignore keys_only x = view ignore keys_only x' ->
    map (view ignore keys_only) l = map (view ignore keys_only) l' ->
    map (view ignore keys_only) (insert_by_key x l)
    = map (view ignore keys_only) (insert_by_key x' l').
Proof.
  induction l as [|y l IH]; intros [|y' l'] Hx Hl; try discriminate.
  - simpl. rewrite Hx. reflexivity.
  - destruct (map_view_cons _ _ _ _ _ _ Hl) as [Hy Hl'].
    destruct (view_eq _ _ _ _ Hx) as [Kx _].
    destruct (view_eq _ _ _ _ Hy) as [Ky _].
    cbn [insert_by_key]. rewrite Kx, Ky. destruct (py_lt _ _).
    + cbn [map]. rewrite Hy. f_equal. apply IH; assumption.
    + cbn [map]. rewrite Hx, Hy. f_equal. f_equal. exact Hl'.
Qed.

Lemma sorted_by_key_view ignore keys_only l :
  forall l',
    map (view ignore keys_only) l = map (view ignore keys_only) l' ->
    map (view ignore keys_only) (sorted_by_key l)
    = map (view ignore keys_only) (sorted_by_key l').
Proof.
  induction l as [|x l IH]; intros [|x' l'] H; try discriminate;
    [reflexivity|].
  destruct (map_view_cons _ _ _ _ _ _ H) as [Hx Hl]. simpl.
  apply insert_by_key_view; auto.
Qed.

Lemma entities_loop_view ignore keys_only a :
  forall a' b b',
    map (view ignore keys_only) a = map (view ignore keys_only) a' ->
    map (view ignore keys_only) b = map (view ignore keys_only) b' ->
    entities_loop ignore keys_only (combine a b)
    = entities_loop ignore keys_only (combine a' b').
Proof.
  induction a as [|x a IH]; intros [|x' a'] b b' Ha Hb; try discriminate;
    [reflexivity|].
  destruct b as [|y b], b' as [|y' b']; try discriminate; [reflexivity|].
  destruct (map_view_cons _ _ _ _ _ _ Ha) as [Hx Ha'].
  destruct (map_view_cons _ _ _ _ _ _ Hb) as [Hy Hb'].
  destruct (view_eq _ _ _ _ Hx) as [Kx Px].
  destruct (view_eq _ _ _ _ Hy) as [Ky Py].
  simpl. rewrite Kx, Ky.
  destruct (ent_key x') as [kx|]; [|reflexivity].
  destruct (ent_key y') as [ky|]; [|reflexivity].
  destruct (same_path kx ky); [|reflexivity].
  destruct keys_only.
  - apply IH; assumption.
  - rewrite Px, Py. rewrite (IH a' b b' Ha' Hb'). reflexivity.
Qed.

(** X14.  The comparison of entities reads nothing but their keys and,
    unless [keys_only], their properties outside [ignore]: two runs on
    entities that agree on these end the same way.  So an ignored property,
    and with [keys_only] every property, can hold anything. *)
Theorem entities_compared_by_view (a a' b b' : entities_arg)
    (ignore : list string) (keys_only in_order : bool) :
  map (view ignore keys_only) (as_list a)
  = map (view ignore keys_only) (as_list a') ->
  map (view ignore keys_only) (as_list b)
  = map (view ignore keys_only) (as_list b') ->
  assert_entities_equal a b ignore keys_only in_order
  = assert_entities_equal a' b' ignore keys_only in_order.
Proof.
  intros Ha Hb. unfold assert_entities_equal.
  set (sa := if in_order then as_list a else sorted_by_key (as_list a)).
  set (sa' := if in_order then as_list a' else sorted_by_key (as_list a')).
  set (sb := if in_order then as_list b else sorted_by_key (as_list b)).
  set (sb' := if in_order then as_list b' else sorted_by_key (as_list b')).
  assert (Va : map (view ignore keys_only) sa = map (view ignore keys_only) sa')
    by (subst sa sa'; destruct in_order; auto using sorted_by_key_view).
  assert (Vb : map (view ignore keys_only) sb = map (view ignore keys_only) sb')
    by (subst sb sb'; destruct in_order; auto using sorted_by_key_view).
  assert (La : length sa = length sa')
    by (apply (f_equal (@length _)) in Va; rewrite !length_map in Va; exact Va).
  assert (Lb : length sb = length sb')
    by (apply (f_equal (@length _)) in Vb; rewrite !length_map in Vb; exact Vb).
  rewrite La, Lb. destruct (Nat.eqb _ _); [|reflexivity].
  apply entities_loop_view; assumption.
Qed.

Lemma entities_compared_by_view_witness :
  map (view ["updated"] false)
      [{| ent_key := Some [("Person", Models.KeyName "bob")];
          ent_props := [("age", VInt 3); ("updated", VInt 1)] |}]
  = map (view ["updated"] false)
      [{| ent_key := Some [("Person", Models.KeyName "bob")];
          ent_props := [("age", VInt 3); ("updated", VInt 2)] |}] /\
  assert_entities_equal
    (OneEntity {| ent_key := Some [("Person", Models.KeyName "bob")];
                  ent_props := [("age", VInt 3); ("updated", VInt 1)] |})
    (OneEntity {| ent_key := Some [("Person", Models.KeyName "bob")];
                  ent_props := [("age", VInt 3); ("updated", VInt 2)] |})
    ["updated"] false true
  = Some EntitiesEqual.
Proof.
  split; [reflexivity|].
  rewrite (entities_compared_by_view
             (OneEntity {| ent_key := Some [("Person", Models.KeyName "bob")];
                           ent_props := [("age", VInt 3); ("updated", VInt 1)] |})
             (OneEntity {| ent_key := Some [("Person", Models.KeyName "bob")];
                           ent_props := [("age", VInt 3); ("updated", VInt 1)] |})
             (OneEntity {| ent_key := Some [("Person", Models.KeyName "bob")];
                           ent_props := [("age", VInt 3); ("updated", VInt 2)] |})
             (OneEntity {| ent_key := Some [("Person", Models.KeyName "bob")];
                           ent_props := [("age", VInt 3); ("updated", VInt 1)] |})
             ["updated"] false true); reflexivity.
Defined.

Lemma same_path_refl k : same_path k k = true.
Proof.
  unfold same_path, key_value. simpl.
  induction k as [|[kind id] k IH]; simpl; [reflexivity|].
  rewrite String.eqb_refl, IH.
  destruct id; simpl; [rewrite String.eqb_refl|rewrite Z.eqb_refl]; reflexivity.
Qed.

(** X15.  [in_order] governs the order of the entities only, not that of
    their values: the properties of two entities are always compared out of
    order, so with the same key they are found equal exactly when the dicts
    of their properties pass the order-insensitive comparison, with
    [in_order] as without. *)
Theorem entity_properties_out_of_order (x y : entity) (k : Models.Key)
    (ignore : list string) (in_order : bool) :
  ent_key x = Some k -> ent_key y = Some k ->
  (assert_entities_equal (OneEntity x) (OneEntity y) ignore false in_order
   = Some EntitiesEqual <->
   _assert_equals (VDict (props ignore x)) (VDict (props ignore y)) false
   = Some Pass).
Proof.
  intros Hx Hy. unfold assert_entities_equal.
  assert (S1 : forall e, (if in_order then as_list (OneEntity e)
                          else sorted_by_key (as_list (OneEntity e))) = [e])
    by (intros e; destruct in_order; reflexivity).
  rewrite !S1. simpl. rewrite Hx, Hy, same_path_refl. unfold assert_equals.
  destruct (_assert_equals _ _ false) as [[|f|]|]; split; intros H;
    try discriminate; reflexivity.
Qed.

Lemma entity_properties_out_of_order_witness :
  assert_entities_equal
    (OneEntity {| ent_key := Some [("Person", Models.KeyName "bob")];
                  ent_props := [("tags", VList [VInt 1; VInt 2])] |})
    (OneEntity {| ent_key := Some [("Person", Models.KeyName "bob")];
                  ent_props := [("tags", VList [VInt 2; VInt 1])] |})
    [] false true
  = Some EntitiesEqual.
Proof.
  apply (entity_properties_out_of_order
           {| ent_key := Some [("Person", Models.KeyName "bob")];
              ent_props := [("tags", VList [VInt 1; VInt 2])] |}
           {| ent_key := Some [("Person", Models.KeyName "bob")];
              ent_props := [("tags", VList [VInt 2; VInt 1])] |}
           [("Person", Models.KeyName "bob")] [] true);
    reflexivity.
Defined.

End MoreTestutilFacts.

(* ===================================================================== *)
(** * Properties of handlers.py *)
(* ===================================================================== *)

Section HandlersFacts.
Import Testutil Handlers.

Lemma getall_nil (ps : list (string * string)) (key : string) :
  getall ps key = [] <-> ~ In key (map fst ps).
Proof.
  unfold getall. induction ps as [|[k v] ps IH]; simpl; [tauto|].
  destruct (String.eqb_spec k key) as [->|Hne]; simpl.
  - split; [discriminate|]. intros H. exfalso. auto.
  - rewrite IH. tauto.
Qed.

Lemma add_params_lookup (ps : list (string * string)) (keys : list string)
    (vars : gmap string value) (k : string) :
  fold_left (fun vars key => <[key := param_value ps key]> vars) keys vars !! k
  = if mem_string k keys then Some (param_value ps k) else vars !! k.
Proof.
  revert vars. induction keys as [|k0 keys IH]; intros vars; [reflexivity|].
  cbn [fold_left]. rewrite IH. unfold mem_string. cbn [existsb].
  fold (mem_string k keys). destruct (mem_string k keys).
  - rewrite orb_true_r. reflexivity.
  - rewrite orb_false_r. destruct (String.eqb_spec k k0) as [->|Hne].
    + apply lookup_insert_eq.
    + apply lookup_insert_ne. congruence.
Qed.

Lemma force_one_other (vars : gmap string value) (key k : string) :
  key <> k -> force_one vars key !! k = vars !! k.
Proof.
  intros Hne. unfold force_one. destruct (vars !! key) as [v|]; [|reflexivity].
  destruct (negb (is_none v) && negb (is_sequence v)); [|reflexivity].
  apply lookup_insert_ne, Hne.
Qed.

Lemma forced_idempotent v : forced (forced v) = forced v.
Proof. destruct v; reflexivity. Qed.

Lemma force_one_same (vars : gmap string value) (k : string) :
  force_one vars k !! k = forced <$> vars !! k.
Proof.
  unfold force_one, forced. destruct (vars !! k) as [v|] eqn:E; simpl.
  - destruct (negb (is_none v) && negb (is_sequence v)).
    + apply lookup_insert_eq.
    + exact E.
  - exact E.
Qed.

Lemma force_all_lookup (force : list string) (vars : gmap string value)
    (k : string) :
  fold_left force_one force vars !! k
  = if mem_string k force then forced <$> vars !! k else vars !! k.
Proof.
  revert vars. induction force as [|k0 force IH]; intros vars; [reflexivity|].
  cbn [fold_left]. rewrite IH. unfold mem_string. cbn [existsb].
  fold (mem_string k force). destruct (String.eqb_spec k k0) as [<-|Hne].
  - rewrite force_one_same. simpl.
    destruct (mem_string k force); [|reflexivity].
    destruct (vars !! k); simpl; [rewrite forced_idempotent|]; reflexivity.
  - rewrite force_one_other by congruence. reflexivity.
Qed.

(** The variables before the loop over [force_to_sequence()]. *)
Lemma unforced_lookup (tvars : gmap string value) (host : string)
    (ps : list (string * string)) (k : string) :
  (tvars ∪ add_params ps {[ "host" := VStr host ]}) !! k
  = match tvars !! k with
    | Some v => Some v
    | None =>
        match getall ps k with
        | [] => if decide (k = "host") then Some (VStr host) else None
        | [v] => Some (VStr v)
        | vs => Some (VList (map VStr vs))
        end
    end.
Proof.
  rewrite lookup_union. destruct (tvars !! k) as [v|] eqn:E.
  - destruct (add_params ps _ !! k); reflexivity.
  - unfold add_params. rewrite add_params_lookup.
    destruct (mem_string k (map fst ps)) eqn:M.
    + apply mem_string_In in M. unfold param_value.
      destruct (getall ps k) as [|v [|v' vs]] eqn:G; try reflexivity.
      apply getall_nil in G. tauto.
    + assert (Hnin : ~ In k (map fst ps))
        by (intros Hin; apply mem_string_In in Hin; congruence).
      apply getall_nil in Hnin. rewrite Hnin.
      destruct (decide (k = "host")) as [->|Hne].
      * rewrite lookup_singleton_eq. reflexivity.
      * rewrite lookup_singleton_ne by congruence. reflexivity.
Qed.

(** X16.  The template variables are resolved by precedence: a variable of
    [template_vars()] wins over a query parameter of the same name, which
    wins over the built-in [host]; so a request parameter named [host]
    replaces the configured host.  A parameter given once is a string, one
    given several times the list of its values in order. *)
Theorem template_context_precedence (h : handler) (host : string)
    (req : request) (k : string) :
  mem_string k (force_to_sequence h) = false ->
  template_context h host req !! k
  = match template_vars h req !! k with
    | Some v => Some v
    | None =>
        match getall (req_params req) k with
        | [] => if decide (k = "host") then Some (VStr host) else None
        | [v] => Some (VStr v)
        | vs => Some (VList (map VStr vs))
        end
    end.
Proof.
  intros Hk. unfold template_context. rewrite force_all_lookup, Hk.
  apply unforced_lookup.
Qed.

Lemma template_context_precedence_witness :
  mem_string "host" (force_to_sequence TemplateHandler) = false /\
  template_context TemplateHandler "example.com"
    {| req_path := "/"; req_params := [("host", "evil.example")];
       req_accept := None |} !! "host"
  = Some (VStr "evil.example").
Proof.
  split; [reflexivity|].
  rewrite (template_context_precedence TemplateHandler "example.com"
             {| req_path := "/"; req_params := [("host", "evil.example")];
                req_accept := None |} "host"); reflexivity.
Defined.

(** X17.  Every variable named by [force_to_sequence()] is, when rendered,
    absent, None, or a list or tuple, never a bare value: a present value
    that is neither None nor a sequence is wrapped in a one-element tuple,
    and anything else is left as it is. *)
Theorem forced_variables_are_sequences (h : handler) (host : string)
    (req : request) (k : string) :
  mem_string k (force_to_sequence h) = true ->
  (template_context h host req !! k
   = forced <$> (template_vars h req
                   ∪ add_params (req_params req) {[ "host" := VStr host ]}) !! k)
  /\
  (forall v, template_context h host req !! k = Some v ->
             is_none v = true \/ is_sequence v = true).
Proof.
  intros Hk.
  assert (E : template_context h host req !! k
   = forced <$> (template_vars h req
                   ∪ add_params (req_params req) {[ "host" := VStr host ]}) !! k).
  { unfold template_context. rewrite force_all_lookup, Hk. reflexivity. }
  split; [exact E|]. intros v. rewrite E. clear E.
  destruct ((template_vars h req ∪ _) !! k) as [w|]; intros H; [|inversion H].
  change (Some (forced w) = Some v) in H. injection H as <-.
  unfold forced. destruct w; simpl; auto.
Qed.

Lemma forced_variables_are_sequences_witness :
  mem_string "tag" (force_to_sequence
              {| template_file := fun _ => Some "t.html";
                 template_vars := fun _ => ∅;
                 content_type := fun _ => "text/html";
                 force_to_sequence := ["tag"];
                 headers := TemplateHandler_headers |}) = true /\
  template_context
    {| template_file := fun _ => Some "t.html";
       template_vars := fun _ => ∅;
       content_type := fun _ => "text/html";
       force_to_sequence := ["tag"];
       headers := TemplateHandler_headers |} "example.com"
    {| req_path := "/"; req_params := [("tag", "a")]; req_accept := None |}
    !! "tag"
  = Some (VTuple [VStr "a"]).
Proof.
  split; [reflexivity|].
  destruct (forced_variables_are_sequences
              {| template_file := fun _ => Some "t.html";
                 template_vars := fun _ => ∅;
                 content_type := fun _ => "text/html";
                 force_to_sequence := ["tag"];
                 headers := TemplateHandler_headers |} "example.com"
              {| req_path := "/"; req_params := [("tag", "a")];
                 req_accept := None |} "tag") as [E _];
    [reflexivity|].
  rewrite E. vm_compute. reflexivity.
Defined.

Lemma default_headers_lookup (host : string) (hs : gmap string string) :
  fold_left (fun hs kv => <[fst kv := snd kv]> hs)
            (TemplateHandler_headers host) hs !! "Content-Type"
  = hs !! "Content-Type".
Proof.
  simpl. rewrite !lookup_insert_ne by discriminate. reflexivity.
Qed.

(** X18.  What an XRD-or-JRD handler serves is consistent: the response has
    content type [application/json] and the [.jrd] template rendered, or
    [application/xrd+xml] and the [.xrd] template, never one with the other;
    nothing is raised, the default headers are set and earlier output is
    kept. *)
Theorem xrd_or_jrd_consistent (template_prefix host : string)
    (render : string -> gmap string value -> string)
    (req : request) (resp : response) :
  let h := XrdOrJrdHandler template_prefix in
  let served := fst (get h host render req resp) in
  snd (get h host render req resp) = false /\
  resp_headers served !! "Cache-Control" = Some "max-age=300" /\
  resp_headers served !! "Access-Control-Allow-Origin" = Some "*" /\
  (is_jrd req = true /\
   resp_headers served !! "Content-Type" = Some "application/json" /\
   resp_out served
   = String.append (resp_out resp)
       (render (String.append template_prefix ".jrd")
               (template_context h host req))
   \/
   is_jrd req = false /\
   resp_headers served !! "Content-Type" = Some "application/xrd+xml" /\
   resp_out served
   = String.append (resp_out resp)
       (render (String.append template_prefix ".xrd")
               (template_context h host req))).
Proof.
  intros h served. subst served. unfold get. simpl.
  split; [reflexivity|].
  split; [rewrite lookup_insert_ne by discriminate;
          rewrite lookup_insert_ne by discriminate;
          apply lookup_insert_eq|].
  split; [apply lookup_insert_eq|].
  rewrite !lookup_insert_ne by discriminate. rewrite lookup_insert_eq.
  destruct (is_jrd req); [left|right]; auto.
Qed.

End HandlersFacts.
